(** * The GST filing import engine of [app/erp_import.py]

    A shallow embedding of the date-windowed importers [SalesImport] and
    [MarketReturnImport]: the report tables they read, the ledger tables
    they write, and the transform each one runs inside its
    [transaction.atomic] block.

    Conventions of the embedding.
    - [decimal.Decimal] values are rationals ([Qc]).  The transform only
      adds, subtracts, negates, multiplies and divides by 100, which
      [Decimal] performs exactly as long as the 28-digit context is not
      exceeded.
    - The binary floats of [MarketReturnImport] are idealised as exact
      rationals too; [round(x, 3)] is round-half-to-even on the third
      decimal.
    - A date is the ordinal of its day.
    - A table is the list of its rows in storage order; a queryset without
      [order_by] yields them in that order.
    - [print] appends one diagnostic to the standard output, which a
      rollback does not undo. *)

From Stdlib Require Import QArith Qcanon Qround Lqa.
From stdpp Require Import base option list gmap strings numbers sorting.

Local Open Scope Qc_scope.

(** ** Numbers *)

Abbreviation Decimal := Qc.

Definition dec (n : Z) : Decimal := Q2Qc (inject_Z n).

(** The sum of a list of decimals. *)
Definition Qcsum (xs : list Decimal) : Decimal := foldr Qcplus (dec 0) xs.

(** [round(x, 3)]: the nearest multiple of 1/1000, ties to the even one. *)
Definition round3 (x : Qc) : Qc :=
  let y := x * dec 1000 in
  let f := Qfloor y in
  let r := y - dec f in
  let n :=
    if decide (r < dec 1 / dec 2) then f
    else if decide (dec 1 / dec 2 < r) then (f + 1)%Z
    else if Z.even f then f else (f + 1)%Z in
  dec n / dec 1000.

(** ** Arguments *)

Definition date := Z.
Bind Scope Z_scope with date.
Definition Company := string.

Record DateRangeArgs := { fromd : date; tod : date }.

(** [date__gte=args.fromd, date__lte=args.tod] *)
Definition in_range (args : DateRangeArgs) (d : date) : bool :=
  bool_decide (fromd args ≤ d)%Z && bool_decide (d ≤ tod args)%Z.

(** ** Report rows (read by the importers) *)

Record SalesRegisterReport := {
  sr_company : Company;
  sr_type : string;
  sr_inum : string;
  sr_date : date;
  sr_party_id : string;
  sr_ctin : option string;
  sr_amt : Decimal;
  sr_btpr : Decimal;
  sr_outpyt : Decimal;
  sr_ushop : Decimal;
  sr_pecom : Decimal;
  sr_other_discount : Decimal;
  sr_roundoff : Decimal;
  sr_tcs : Decimal;
  sr_tds : Decimal }.

Record IkeaGSTR1Report := {
  gs_company : Company;
  gs_type : string;
  gs_inum : string;
  gs_date : date;
  gs_credit_note_no : string;
  gs_original_invoice_no : string;
  gs_ctin : option string;
  gs_stock_id : string;
  gs_qty : Z;
  gs_rt : Decimal;
  gs_txval : Decimal;
  gs_inv_amt : Decimal }.

Record DmgShtReport := {
  ds_company : Company;
  ds_return_from : string;
  ds_type : string;
  ds_inum : string;
  ds_date : date;
  ds_party_id : string;
  ds_stock_id : string;
  ds_qty : Z;
  ds_amt : Decimal }.

(** ** Master and ledger rows (written by the importers) *)

Record Stock := {
  st_company : Company;
  st_name : string;
  st_hsn : string;
  st_rt : Decimal }.

Record Sales := {
  company_id : Company;
  type : string;
  inum : string;
  date_ : date;
  party_id : string;
  amt : Decimal;
  ctin : option string;
  discount : Decimal;
  roundoff : Decimal;
  tcs : Decimal;
  tds : Decimal }.

Record Discount := {
  d_company_id : Company;
  d_bill_id : string;
  d_sub_type : string;
  d_amt : Decimal }.

Record Inventory := {
  i_company_id : Company;
  i_bill_id : string;
  i_stock_id : string;
  i_qty : Z;
  i_rt : Decimal;
  i_txval : Decimal }.

Global Instance SalesRegisterReport_eq_dec : EqDecision SalesRegisterReport.
Proof. solve_decision. Defined.
Global Instance IkeaGSTR1Report_eq_dec : EqDecision IkeaGSTR1Report.
Proof. solve_decision. Defined.
Global Instance DmgShtReport_eq_dec : EqDecision DmgShtReport.
Proof. solve_decision. Defined.
Global Instance Sales_eq_dec : EqDecision Sales.
Proof. solve_decision. Defined.
Global Instance Discount_eq_dec : EqDecision Discount.
Proof. solve_decision. Defined.
Global Instance Inventory_eq_dec : EqDecision Inventory.
Proof. solve_decision. Defined.

(** ** The store and the outside world *)

(** The models module is not among the sources.  Whether the ledger table
    declares (company, invoice number) unique is therefore a parameter of
    the store, [unique_inum]. *)
Record Database := {
  unique_inum : bool;
  salesregister_report : list SalesRegisterReport;
  ikeagstr1_report : list IkeaGSTR1Report;
  dmgsht_report : list DmgShtReport;
  stock : list Stock;
  sales : list Sales;
  discounts : list Discount;
  inventory : list Inventory }.

Inductive Diagnostic :=
  | NoMatchingCreditNote (inum : string) (d : date)
  | StockRateNotFound (stock_id : string).

Record World := { db : Database; stdout : list Diagnostic }.

Inductive Exception := IndexError | ZeroDivisionError | IntegrityError.

Inductive Result (A : Type) :=
  | Ok (a : A)
  | Raise (e : Exception).
Arguments Ok {A} a.
Arguments Raise {A} e.

(** ** Statements: state passing with exceptions *)

Definition M (A : Type) : Type := World → World * Result A.

Global Instance M_ret : MRet M := λ A a w, (w, Ok a).

Global Instance M_bind : MBind M := λ A B k m w,
  match m w with
  | (w', Ok a) => k a w'
  | (w', Raise e) => (w', Raise e)
  end.

Definition raise {A} (e : Exception) : M A := λ w, (w, Raise e).

Definition print (d : Diagnostic) : M () :=
  λ w, ({| db := db w; stdout := stdout w ++ [d] |}, Ok ()).

Definition get_db : M Database := λ w, (w, Ok (db w)).

Definition put_db (d : Database) : M () :=
  λ w, ({| db := d; stdout := stdout w |}, Ok ()).

(** [@transaction.atomic]: when the body raises, the store is put back to
    what it was on entry and the exception is raised again. *)
Definition transaction_atomic {A} (body : M A) : M A :=
  λ w, match body w with
       | (w', Ok a) => (w', Ok a)
       | (w', Raise e) => ({| db := db w; stdout := stdout w' |}, Raise e)
       end.

(** ** Queries and bulk operations *)

Definition key_le {A} (key : A → Decimal) (a b : A) : Prop := key a ≤ key b.

Global Instance key_le_dec {A} (key : A → Decimal) : RelDecision (key_le key) :=
  λ a b, decide (key a ≤ key b).

(** [order_by(key)]: ascending in [key]. *)
Definition order_by {A} (key : A → Decimal) (rows : list A) : list A :=
  merge_sort (key_le key) rows.

(** [range(0, n, step)] *)
Definition range_step (n step : nat) : list nat :=
  (λ j, j * step)%nat <$> seq 0 ((n + step - 1) / step)%nat.

Definition sales_ref (s : Sales) : Company * string := (company_id s, inum s).

(** What [Sales.objects.filter(pk__in=batch).delete()] leaves of the store.
    Discount and inventory rows point to their ledger row through [bill_id]
    and go with it (the "cascading delete" of the comment in
    [DateImport.basic_run]). *)
Definition delete_from (batch : list Sales) (d : Database) : Database :=
  {| unique_inum := unique_inum d;
     salesregister_report := salesregister_report d;
     ikeagstr1_report := ikeagstr1_report d;
     dmgsht_report := dmgsht_report d;
     stock := stock d;
     sales := filter (λ s, s ∉ batch) (sales d);
     discounts :=
       filter (λ x, (d_company_id x, d_bill_id x) ∉ sales_ref <$> batch)
              (discounts d);
     inventory :=
       filter (λ x, (i_company_id x, i_bill_id x) ∉ sales_ref <$> batch)
              (inventory d) |}.

Definition delete_sales (batch : list Sales) : M () :=
  d ← get_db; put_db (delete_from batch d).

(** [Sales.objects.filter(company=company).filter(date__gte=args.fromd,
    date__lte=args.tod, type__in=types)] *)
Definition inums_qs (company : Company) (args : DateRangeArgs)
    (types : list string) (d : Database) : list Sales :=
  filter (λ s, company_id s = company ∧ in_range args (date_ s) ∧
               type s ∈ types) (sales d).

Definition batch_delete (queryset : list Sales) (batch_size : nat) : M () :=
  let pks := queryset in
  foldr (λ i rest, delete_sales (take batch_size (drop i pks));; rest)
        (mret ()) (range_step (length pks) batch_size).

(** [Sales.objects.bulk_create(rows)] *)
Definition bulk_create_sales (rows : list Sales) : M () :=
  d ← get_db;
  if unique_inum d && bool_decide (¬ NoDup (sales_ref <$> (sales d ++ rows)))
  then raise IntegrityError
  else put_db {|
    unique_inum := unique_inum d;
    salesregister_report := salesregister_report d;
    ikeagstr1_report := ikeagstr1_report d;
    dmgsht_report := dmgsht_report d;
    stock := stock d;
    sales := sales d ++ rows;
    discounts := discounts d;
    inventory := inventory d |}.

(** [Discount.objects.bulk_create(rows)] *)
Definition bulk_create_discount (rows : list Discount) : M () :=
  d ← get_db;
  put_db {|
    unique_inum := unique_inum d;
    salesregister_report := salesregister_report d;
    ikeagstr1_report := ikeagstr1_report d;
    dmgsht_report := dmgsht_report d;
    stock := stock d;
    sales := sales d;
    discounts := discounts d ++ rows;
    inventory := inventory d |}.

(** [Inventory.objects.bulk_create(rows)] *)
Definition bulk_create_inventory (rows : list Inventory) : M () :=
  d ← get_db;
  put_db {|
    unique_inum := unique_inum d;
    salesregister_report := salesregister_report d;
    ikeagstr1_report := ikeagstr1_report d;
    dmgsht_report := dmgsht_report d;
    stock := stock d;
    sales := sales d;
    discounts := discounts d;
    inventory := inventory d ++ rows |}.

(** Modelled from the spec: the value of a numeric column that a
    constructor call leaves out (the field defaults of the report and ledger
    models, which are not among the sources).  The spec has every synthetic
    row take part in the sums and copies of ledger emission, so the columns
    hold a number; zero is the one that adds nothing. *)
Definition field_default : Decimal := dec 0.

(** In-place attribute assignments on report rows. *)
Definition set_sr_roundoff (v : Decimal) (o : SalesRegisterReport) :=
  {| sr_company := sr_company o; sr_type := sr_type o; sr_inum := sr_inum o;
     sr_date := sr_date o; sr_party_id := sr_party_id o; sr_ctin := sr_ctin o;
     sr_amt := sr_amt o; sr_btpr := sr_btpr o; sr_outpyt := sr_outpyt o;
     sr_ushop := sr_ushop o; sr_pecom := sr_pecom o;
     sr_other_discount := sr_other_discount o; sr_roundoff := v;
     sr_tcs := sr_tcs o; sr_tds := sr_tds o |}.

Definition set_sr_btpr (v : Decimal) (o : SalesRegisterReport) :=
  {| sr_company := sr_company o; sr_type := sr_type o; sr_inum := sr_inum o;
     sr_date := sr_date o; sr_party_id := sr_party_id o; sr_ctin := sr_ctin o;
     sr_amt := sr_amt o; sr_btpr := v; sr_outpyt := sr_outpyt o;
     sr_ushop := sr_ushop o; sr_pecom := sr_pecom o;
     sr_other_discount := sr_other_discount o; sr_roundoff := sr_roundoff o;
     sr_tcs := sr_tcs o; sr_tds := sr_tds o |}.

Definition set_sr_inum (v : string) (o : SalesRegisterReport) :=
  {| sr_company := sr_company o; sr_type := sr_type o; sr_inum := v;
     sr_date := sr_date o; sr_party_id := sr_party_id o; sr_ctin := sr_ctin o;
     sr_amt := sr_amt o; sr_btpr := sr_btpr o; sr_outpyt := sr_outpyt o;
     sr_ushop := sr_ushop o; sr_pecom := sr_pecom o;
     sr_other_discount := sr_other_discount o; sr_roundoff := sr_roundoff o;
     sr_tcs := sr_tcs o; sr_tds := sr_tds o |}.

Definition set_gs_inum (v : string) (o : IkeaGSTR1Report) :=
  {| gs_company := gs_company o; gs_type := gs_type o; gs_inum := v;
     gs_date := gs_date o; gs_credit_note_no := gs_credit_note_no o;
     gs_original_invoice_no := gs_original_invoice_no o; gs_ctin := gs_ctin o;
     gs_stock_id := gs_stock_id o; gs_qty := gs_qty o; gs_rt := gs_rt o;
     gs_txval := gs_txval o; gs_inv_amt := gs_inv_amt o |}.

Definition set_gs_txval (v : Decimal) (o : IkeaGSTR1Report) :=
  {| gs_company := gs_company o; gs_type := gs_type o; gs_inum := gs_inum o;
     gs_date := gs_date o; gs_credit_note_no := gs_credit_note_no o;
     gs_original_invoice_no := gs_original_invoice_no o; gs_ctin := gs_ctin o;
     gs_stock_id := gs_stock_id o; gs_qty := gs_qty o; gs_rt := gs_rt o;
     gs_txval := v; gs_inv_amt := gs_inv_amt o |}.

Definition set_amt (v : Decimal) (o : Sales) :=
  {| company_id := company_id o; type := type o; inum := inum o;
     date_ := date_ o; party_id := party_id o; amt := v; ctin := ctin o;
     discount := discount o; roundoff := roundoff o; tcs := tcs o;
     tds := tds o |}.

(** A [defaultdict]: a missing key reads as the default. *)
Definition getitem {K V} `{Countable K} (dflt : V) (m : gmap K V) (k : K) : V :=
  default dflt (m !! k).

(** ** [class SalesImport(DateImport)] *)

Module SalesImport.

Definition TDS_PERCENT : Decimal := dec 2.

Definition types : list string := ["sales"; "salesreturn"; "claimservice"].

Definition delete_before_insert (company : Company) (args : DateRangeArgs)
  : M () :=
  d ← get_db;
  batch_delete (inums_qs company args types d) 100.

(** *** Sales return: queueing the credit notes (first loop) *)

Abbreviation cn_queues := (gmap (date * string) (list string)).

(** The body of [for obj in salesreturn_inventory_objs], on the row. *)
Definition inventory_return_obj (obj : IkeaGSTR1Report) : IkeaGSTR1Report :=
  let obj := set_gs_inum (gs_credit_note_no obj) obj in
  set_gs_txval (- gs_txval obj) obj.

(** The same body, on [date_original_inum_to_cn]. *)
Definition queue_credit_note (q : cn_queues) (obj : IkeaGSTR1Report)
  : cn_queues :=
  let obj := inventory_return_obj obj in
  let k := (gs_date obj, gs_original_invoice_no obj) in
  let inums := getitem [] q k in
  if decide (gs_inum obj ∈ inums) then q
  else <[k := inums ++ [gs_credit_note_no obj]]> q.

Definition queue_credit_notes (objs : list IkeaGSTR1Report) : cn_queues :=
  foldl queue_credit_note ∅ objs.

(** *** Sales return: resolving the register rows (second loop) *)

(** The body of [for obj in salesreturn_objs]. *)
Definition resolve_return (q : cn_queues) (obj : SalesRegisterReport)
  : M (SalesRegisterReport * cn_queues) :=
  let obj := set_sr_roundoff (- sr_roundoff obj) obj in
  let k := (sr_date obj, sr_inum obj) in
  let inums := getitem [] q k in
  (if decide (length inums = 0%nat)
   then print (NoMatchingCreditNote (sr_inum obj) (sr_date obj))
   else mret ());;
  match inums with
  | [] => raise IndexError
  | inum :: inums' => mret (set_sr_inum inum obj, <[k := inums']> q)
  end.

Fixpoint resolve_returns (q : cn_queues) (objs : list SalesRegisterReport)
  : M (list SalesRegisterReport * cn_queues) :=
  match objs with
  | [] => mret ([], q)
  | obj :: objs' =>
      '(obj', q') ← resolve_return q obj;
      '(rest, q'') ← resolve_returns q' objs';
      mret (obj' :: rest, q'')
  end.

(** *** Claim service *)

Definition claimservice_sums (objs : list IkeaGSTR1Report)
  : gmap string Decimal * gmap string Decimal :=
  foldl (λ '(claimservice_txval, claimservice_tax) inv_obj,
           (<[gs_inum inv_obj :=
                getitem (dec 0) claimservice_txval (gs_inum inv_obj)
                + gs_txval inv_obj]> claimservice_txval,
            <[gs_inum inv_obj :=
                getitem (dec 0) claimservice_tax (gs_inum inv_obj)
                + dec 2 * gs_txval inv_obj * gs_rt inv_obj / dec 100]>
              claimservice_tax))
        (∅, ∅) objs.

(** [.distinct("inum")]: one row for each invoice number, the first one
    stored. *)
Fixpoint distinct_inum (objs : list IkeaGSTR1Report) : list IkeaGSTR1Report :=
  match objs with
  | [] => []
  | obj :: objs' =>
      obj :: filter (λ o, gs_inum o ≠ gs_inum obj) (distinct_inum objs')
  end.

Definition claimservice_obj (company : Company)
    (sums : gmap string Decimal * gmap string Decimal)
    (inv_obj : IkeaGSTR1Report) : SalesRegisterReport :=
  let txval := getitem (dec 0) sums.1 (gs_inum inv_obj) in
  let tax := getitem (dec 0) sums.2 (gs_inum inv_obj) in
  let tds := (txval * TDS_PERCENT) / dec 100 in
  {| sr_company := company;
     sr_type := "claimservice";
     sr_inum := gs_inum inv_obj;
     sr_date := gs_date inv_obj;
     sr_party_id := "HUL";
     sr_ctin := gs_ctin inv_obj;
     sr_amt := txval + tax - tds;
     sr_btpr := field_default;
     sr_outpyt := field_default;
     sr_ushop := field_default;
     sr_pecom := field_default;
     sr_other_discount := field_default;
     sr_roundoff := field_default;
     sr_tcs := field_default;
     sr_tds := tds |}.

Definition claimservice_objs (company : Company)
    (claimservice_inventory_objs : list IkeaGSTR1Report)
  : list SalesRegisterReport :=
  claimservice_obj company (claimservice_sums claimservice_inventory_objs)
    <$> distinct_inum claimservice_inventory_objs.

(** *** The three output streams *)

Definition model_sales_obj (company : Company) (qs : SalesRegisterReport)
  : Sales :=
  {| company_id := company;
     type := sr_type qs;
     inum := sr_inum qs;
     date_ := sr_date qs;
     party_id := sr_party_id qs;
     amt := - sr_amt qs;
     ctin := sr_ctin qs;
     discount :=
       - (sr_btpr qs + sr_outpyt qs + sr_ushop qs + sr_pecom qs
          + sr_other_discount qs);
     roundoff := sr_roundoff qs;
     tcs := sr_tcs qs;
     tds := - sr_tds qs |}.

Definition discount_fields (qs : SalesRegisterReport)
  : list (string * Decimal) :=
  [("btpr", sr_btpr qs); ("outpyt", sr_outpyt qs); ("ushop", sr_ushop qs);
   ("pecom", sr_pecom qs); ("other_discount", sr_other_discount qs)].

Definition model_discount_objs (company : Company)
    (qs : SalesRegisterReport) : list Discount :=
  (λ '(discount, value),
     {| d_company_id := company; d_bill_id := sr_inum qs;
        d_sub_type := discount; d_amt := - value |})
  <$> filter (λ dv, dv.2 ≠ dec 0) (discount_fields qs).

(** The rows [exclude(btpr=0, outpyt=0, ushop=0, pecom=0,
    other_discount=0)] drops: those matching every condition. *)
Definition no_discount (qs : SalesRegisterReport) : Prop :=
  sr_btpr qs = dec 0 ∧ sr_outpyt qs = dec 0 ∧ sr_ushop qs = dec 0 ∧
  sr_pecom qs = dec 0 ∧ sr_other_discount qs = dec 0.

Definition model_inventory_obj (company : Company) (qs : IkeaGSTR1Report)
  : Inventory :=
  {| i_company_id := company;
     i_bill_id := gs_inum qs;
     i_stock_id := gs_stock_id qs;
     i_qty := gs_qty qs;
     i_rt := gs_rt qs;
     i_txval := gs_txval qs |}.

(** *** The querysets of [run_atomic]

    They are lazy in the source; the report tables are not written
    during the transaction, so each evaluation yields the same rows. *)

Section querysets.
Context (company : Company) (args : DateRangeArgs) (d : Database).

Definition sales_qs : list SalesRegisterReport :=
  filter (λ r, sr_company r = company ∧ in_range args (sr_date r))
         (salesregister_report d).

Definition inventory_qs : list IkeaGSTR1Report :=
  filter (λ r, gs_company r = company ∧ in_range args (gs_date r))
         (ikeagstr1_report d).

Definition sales_objs : list SalesRegisterReport :=
  filter (λ r, sr_type r = "sales") sales_qs.

Definition sales_inventory_objs : list IkeaGSTR1Report :=
  filter (λ r, gs_type r = "sales") inventory_qs.

Definition salesreturn_objs : list SalesRegisterReport :=
  order_by sr_amt (filter (λ r, sr_type r = "salesreturn") sales_qs).

Definition salesreturn_inventory_objs : list IkeaGSTR1Report :=
  order_by gs_inv_amt
    (filter (λ r, gs_type r = "salesreturn") inventory_qs).

Definition claimservice_inventory_objs : list IkeaGSTR1Report :=
  filter (λ r, gs_type r = "claimservice") inventory_qs.
End querysets.

(** *** [run_atomic] *)

Definition run_atomic_body (company : Company) (args : DateRangeArgs)
  : M () :=
  delete_before_insert company args;;
  d ← get_db;
  (* Sales Return *)
  let date_original_inum_to_cn :=
    queue_credit_notes (salesreturn_inventory_objs company args d) in
  let salesreturn_inventory_objs :=
    inventory_return_obj <$> salesreturn_inventory_objs company args d in
  '(salesreturn_objs, _) ←
    resolve_returns date_original_inum_to_cn
      (salesreturn_objs company args d);
  (* ClaimService *)
  let claimservice_objs :=
    claimservice_objs company (claimservice_inventory_objs company args d) in
  (* Insert sales *)
  bulk_create_sales
    (model_sales_obj company
       <$> sales_objs company args d ++ salesreturn_objs
           ++ claimservice_objs);;
  (* Insert Discount *)
  bulk_create_discount
    ((filter (λ r, ¬ no_discount r) (sales_objs company args d)
        ++ salesreturn_objs ++ claimservice_objs)
     ≫= model_discount_objs company);;
  (* Insert inventory *)
  bulk_create_inventory
    (model_inventory_obj company
       <$> sales_inventory_objs company args d
           ++ salesreturn_inventory_objs
           ++ claimservice_inventory_objs company args d).

Definition run_atomic (company : Company) (args : DateRangeArgs) : M () :=
  transaction_atomic (run_atomic_body company args).

End SalesImport.

(** ** [class MarketReturnImport(DateImport)] *)

Module MarketReturnImport.

Definition types : list string := ["damage"; "shortage"].

Definition delete_before_insert (company : Company) (args : DateRangeArgs)
  : M () :=
  d ← get_db;
  delete_sales (inums_qs company args types d).

(** [Stock.objects.filter(company=company, name=OuterRef("stock_id"))
    .values("rt")[:1]] *)
Definition stock_rt_subquery (d : Database) (company : Company)
    (stock_id : string) : option Decimal :=
  st_rt <$> head (filter (λ s, st_company s = company ∧ st_name s = stock_id)
                         (stock d)).

Definition later (a b : Sales) : Prop := (date_ b ≤ date_ a)%Z.

Global Instance later_dec : RelDecision later :=
  λ a b, decide (date_ b ≤ date_ a)%Z.

(** [Sales.objects.filter(company=company, party_id=OuterRef("party_id"))
    .order_by("-date").values("ctin")[:1]] *)
Definition party_ctin_subquery (d : Database) (company : Company)
    (party : string) : option string :=
  head (merge_sort later
          (filter (λ s, company_id s = company ∧ party_id s = party)
                  (sales d)))
  ≫= ctin.

(** A row of [market_returns]: the report row with its two annotations. *)
Record annotated := {
  mr_row : DmgShtReport;
  mr_rt : option Decimal;
  mr_ctin : option string }.

Definition market_returns (d : Database) (company : Company)
  : list annotated :=
  (λ r, {| mr_row := r;
           mr_rt := stock_rt_subquery d company (ds_stock_id r);
           mr_ctin := party_ctin_subquery d company (ds_party_id r) |})
  <$> filter (λ r, ds_return_from r = "market" ∧ ds_company r = company)
             (dmgsht_report d).

(** [mr.ctin or None] *)
Definition ctin_or_None (c : option string) : option string :=
  match c with
  | Some "" => None
  | c => c
  end.

(** [round(float(amt) * 100 / (100 + 2 * float(rt)), 3) if rt else 0] *)
Definition txval_of (amt rt : Decimal) : M Decimal :=
  if decide (rt = dec 0) then mret (dec 0)
  else if decide (dec 100 + dec 2 * rt = dec 0) then raise ZeroDivisionError
  else mret (round3 (amt * dec 100 / (dec 100 + dec 2 * rt))).

(** [sales_objects]: a dict, kept as the list of its items in insertion
    order (the order [.values()] yields them in). *)
Abbreviation sales_dict := (list (string * Sales)).

(** [sales_objects[k].amt += v] *)
Definition add_amt (k : string) (v : Decimal) (sales_objects : sales_dict)
  : sales_dict :=
  (λ kv, if decide (kv.1 = k) then (kv.1, set_amt (amt kv.2 + v) kv.2)
         else kv) <$> sales_objects.

(** The body of [for mr in market_returns]. *)
Definition market_return (company : Company)
    (acc : sales_dict * list Inventory) (mr : annotated)
  : M (sales_dict * list Inventory) :=
  let '(sales_objects, inventory_objects) := acc in
  let ctin := ctin_or_None (mr_ctin mr) in
  match mr_rt mr with
  | None =>
      print (StockRateNotFound (ds_stock_id (mr_row mr)));;
      mret (sales_objects, inventory_objects)
  | Some rt =>
      txval ← txval_of (ds_amt (mr_row mr)) rt;
      let sales_objects :=
        if decide (ds_inum (mr_row mr) ∈ sales_objects.*1)
        then sales_objects
        else sales_objects ++
             [(ds_inum (mr_row mr),
               {| company_id := company;
                  type := ds_type (mr_row mr);
                  inum := ds_inum (mr_row mr);
                  date_ := ds_date (mr_row mr);
                  party_id := ds_party_id (mr_row mr);
                  amt := dec 0;
                  ctin := ctin;
                  discount := field_default;
                  roundoff := field_default;
                  tcs := field_default;
                  tds := field_default |})] in
      let sales_objects :=
        add_amt (ds_inum (mr_row mr)) (ds_amt (mr_row mr)) sales_objects in
      mret (sales_objects,
            inventory_objects ++
            [{| i_company_id := company;
                i_bill_id := ds_inum (mr_row mr);
                i_stock_id := ds_stock_id (mr_row mr);
                i_qty := ds_qty (mr_row mr);
                i_rt := rt;
                i_txval := txval |}])
  end.

Fixpoint market_return_loop (company : Company)
    (acc : sales_dict * list Inventory) (mrs : list annotated)
  : M (sales_dict * list Inventory) :=
  match mrs with
  | [] => mret acc
  | mr :: mrs' =>
      acc' ← market_return company acc mr;
      market_return_loop company acc' mrs'
  end.

(** The body never looks at [args]. *)
Definition run_atomic_body (company : Company) (args : DateRangeArgs)
  : M () :=
  d ← get_db;
  '(sales_objects, inventory_objects) ←
    market_return_loop company ([], []) (market_returns d company);
  bulk_create_sales sales_objects.*2;;
  bulk_create_inventory inventory_objects.

Definition run_atomic (company : Company) (args : DateRangeArgs) : M () :=
  transaction_atomic (run_atomic_body company args).

End MarketReturnImport.

(** ** The date-ranged importers

    [GstFilingImport.imports] lists two subclasses of [DateImport]. *)

Inductive DateImport := SalesImport_class | MarketReturnImport_class.

Definition run_atomic_body (cls : DateImport) : Company → DateRangeArgs → M () :=
  match cls with
  | SalesImport_class => SalesImport.run_atomic_body
  | MarketReturnImport_class => MarketReturnImport.run_atomic_body
  end.

Definition run_atomic (cls : DateImport) : Company → DateRangeArgs → M () :=
  match cls with
  | SalesImport_class => SalesImport.run_atomic
  | MarketReturnImport_class => MarketReturnImport.run_atomic
  end.

(** ** Vocabulary of the statements *)

Definition with_db (d : Database) (w : World) : World :=
  {| db := d; stdout := stdout w |}.

(** The sign convention between a register row and its ledger entry. *)
Definition ledger_signs (qs : SalesRegisterReport) (e : Sales) : Prop :=
  amt e = - sr_amt qs ∧
  discount e = - (sr_btpr qs + sr_outpyt qs + sr_ushop qs + sr_pecom qs
                  + sr_other_discount qs) ∧
  roundoff e = (if decide (sr_type qs = "salesreturn")
                then - sr_roundoff qs else sr_roundoff qs) ∧
  tds e = - sr_tds qs ∧
  tcs e = sr_tcs qs.

(** The queue keys of the two return loops. *)
Definition register_key (obj : SalesRegisterReport) : date * string :=
  (sr_date obj, sr_inum obj).

Definition inventory_key (obj : IkeaGSTR1Report) : date * string :=
  (gs_date obj, gs_original_invoice_no obj).

(** The invoice numbers handed to the register rows of key [k], in the order
    the rows were processed. *)
Definition handed_out (k : date * string)
    (objs resolved : list SalesRegisterReport) : list string :=
  (λ p, sr_inum p.2) <$> filter (λ p, register_key p.1 = k) (zip objs resolved).

(** A list without the repetitions of its elements: first occurrences, in
    order. *)
Definition first_occurrences (l : list string) : list string :=
  foldl (λ acc x, if decide (x ∈ acc) then acc else acc ++ [x]) [] l.

(** The tax of one claim-service line: twice rate per cent of its taxable
    value. *)
Definition line_tax (o : IkeaGSTR1Report) : Decimal :=
  dec 2 * gs_txval o * gs_rt o / dec 100.

(** The inventory line of a market return whose rate was found. *)
Definition market_return_line (company : Company)
    (mr : MarketReturnImport.annotated) (line : Inventory) : Prop :=
  ∃ rt, MarketReturnImport.mr_rt mr = Some rt ∧
    let row := MarketReturnImport.mr_row mr in
    line = {| i_company_id := company;
              i_bill_id := ds_inum row;
              i_stock_id := ds_stock_id row;
              i_qty := ds_qty row;
              i_rt := rt;
              i_txval :=
                if decide (rt = dec 0) then dec 0
                else round3 (ds_amt row * dec 100 / (dec 100 + dec 2 * rt)) |}.

(** ** Sample data *)

Module Sample.

Local Open Scope Z_scope.

Definition acme : Company := "acme".

Definition january : DateRangeArgs := {| fromd := 1; tod := 31 |}.

Definition register (type inum : string) (day amt : Z) : SalesRegisterReport :=
  {| sr_company := acme; sr_type := type; sr_inum := inum; sr_date := day;
     sr_party_id := "P1"; sr_ctin := None; sr_amt := dec amt;
     sr_btpr := dec 0; sr_outpyt := dec 0; sr_ushop := dec 0;
     sr_pecom := dec 0; sr_other_discount := dec 0; sr_roundoff := dec 0;
     sr_tcs := dec 0; sr_tds := dec 0 |}.

Definition credit_note (cn original : string) (day inv_amt : Z)
  : IkeaGSTR1Report :=
  {| gs_company := acme; gs_type := "salesreturn"; gs_inum := original;
     gs_date := day; gs_credit_note_no := cn;
     gs_original_invoice_no := original; gs_ctin := None;
     gs_stock_id := "S1"; gs_qty := 1; gs_rt := dec 5;
     gs_txval := dec inv_amt; gs_inv_amt := dec inv_amt |}.

Definition claim (inum : string) (day txval rt : Z) : IkeaGSTR1Report :=
  {| gs_company := acme; gs_type := "claimservice"; gs_inum := inum;
     gs_date := day; gs_credit_note_no := "";
     gs_original_invoice_no := ""; gs_ctin := None;
     gs_stock_id := "CLM1"; gs_qty := 1; gs_rt := dec rt;
     gs_txval := dec txval; gs_inv_amt := dec txval |}.

Definition market (inum stock_id : string) (day amt : Z) : DmgShtReport :=
  {| ds_company := acme; ds_return_from := "market"; ds_type := "damage";
     ds_inum := inum; ds_date := day; ds_party_id := "P1";
     ds_stock_id := stock_id; ds_qty := 1; ds_amt := dec amt |}.

Definition ledger (type inum : string) (day amt : Z) : Sales :=
  {| company_id := acme; type := type; inum := inum; date_ := day;
     party_id := "P1"; amt := dec amt; ctin := None; discount := dec 0;
     roundoff := dec 0; tcs := dec 0; tds := dec 0 |}.

Definition store (unique : bool) (reg : list SalesRegisterReport)
    (inv : list IkeaGSTR1Report) (dmg : list DmgShtReport)
    (stk : list Stock) (led : list Sales) : World :=
  {| db := {| unique_inum := unique; salesregister_report := reg;
              ikeagstr1_report := inv; dmgsht_report := dmg; stock := stk;
              sales := led; discounts := []; inventory := [] |};
     stdout := [] |}.

(** A return in the register with no credit note in the inventory report,
    and an older ledger row inside the window. *)
Definition unmatched (unique : bool) : World :=
  store unique [register "salesreturn" "I1" 5 10] [] [] []
        [ledger "sales" "I0" 3 (-70)].

(** Three returns of one invoice and their three credit notes, stored out
    of order. *)
Definition three_returns : World :=
  store true
    [register "salesreturn" "I1" 5 30; register "salesreturn" "I1" 5 10;
     register "salesreturn" "I1" 5 20]
    [credit_note "CN3" "I1" 5 40; credit_note "CN1" "I1" 5 5;
     credit_note "CN2" "I1" 5 15] [] [] [].

(** Two claim-service lines of invoice I1 at 5%. *)
Definition two_claims : World :=
  store true [] [claim "I1" 5 100 5; claim "I1" 5 200 5] [] [] [].

(** One market return of a stock item whose master rate is [rt]. *)
Definition one_market_return (unique : bool) (rt : Z) : World :=
  store unique [] [] [market "D1" "S1" 5 100]
        [{| st_company := acme; st_name := "S1"; st_hsn := "3401";
            st_rt := dec rt |}] [].

(** Two returns of one invoice; the first credit note has two lines. *)
Definition two_line_credit_note : World :=
  store true
    [register "salesreturn" "I1" 5 10; register "salesreturn" "I1" 5 20]
    [credit_note "CN1" "I1" 5 4; credit_note "CN2" "I1" 5 20;
     credit_note "CN1" "I1" 5 6] [] [] [].

(** A sale with a [btpr] discount of 4 and a sale with no discount. *)
Definition discounted : World :=
  store true
    [set_sr_btpr (dec 4) (register "sales" "S1" 5 50);
     register "sales" "S2" 6 60] [] [] [] [].

(** A window that does not contain day 5. *)
Definition february : DateRangeArgs := {| fromd := 32; tod := 59 |}.

End Sample.

Definition set_company (v : Company) (o : Sales) :=
  {| company_id := v; type := type o; inum := inum o;
     date_ := date_ o; party_id := party_id o; amt := amt o; ctin := ctin o;
     discount := discount o; roundoff := roundoff o; tcs := tcs o;
     tds := tds o |}.

Definition set_ctin (v : option string) (o : Sales) :=
  {| company_id := company_id o; type := type o; inum := inum o;
     date_ := date_ o; party_id := party_id o; amt := amt o; ctin := v;
     discount := discount o; roundoff := roundoff o; tcs := tcs o;
     tds := tds o |}.

(** ** Vocabulary for the rest of the file *)

(** The rows a [delete_before_insert] selects. *)
Definition in_window (company : Company) (args : DateRangeArgs)
    (types : list string) (s : Sales) : Prop :=
  company_id s = company ∧ in_range args (date_ s) ∧ type s ∈ types.

Definition types_of (cls : DateImport) : list string :=
  match cls with
  | SalesImport_class => SalesImport.types
  | MarketReturnImport_class => MarketReturnImport.types
  end.

Definition delete_before_insert (cls : DateImport)
  : Company → DateRangeArgs → M () :=
  match cls with
  | SalesImport_class => SalesImport.delete_before_insert
  | MarketReturnImport_class => MarketReturnImport.delete_before_insert
  end.

(** A discount or inventory row points to a ledger row. *)
Definition discount_ref (x : Discount) : Company * string :=
  (d_company_id x, d_bill_id x).

Definition inventory_ref (x : Inventory) : Company * string :=
  (i_company_id x, i_bill_id x).

(** The inventory line of an inventory-report row: a return goes under its
    credit note with its taxable value negated, other rows as they are. *)
Definition inventory_line (company : Company) (obj : IkeaGSTR1Report)
    (line : Inventory) : Prop :=
  i_company_id line = company ∧
  i_stock_id line = gs_stock_id obj ∧
  i_qty line = gs_qty obj ∧
  i_rt line = gs_rt obj ∧
  if decide (gs_type obj = "salesreturn")
  then i_bill_id line = gs_credit_note_no obj ∧ i_txval line = - gs_txval obj
  else i_bill_id line = gs_inum obj ∧ i_txval line = gs_txval obj.

(** Every (date, invoice number) has at least as many queued credit notes as
    register returns. *)
Definition enough_credit_notes (q : gmap (date * string) (list string))
    (objs : list SalesRegisterReport) : Prop :=
  ∀ k, (length (filter (λ o, register_key o = k) objs)
        ≤ length (getitem [] q k))%nat.

(** The market returns whose rate was found, and the ones left out. *)
Definition resolvable (mr : MarketReturnImport.annotated) : Prop :=
  is_Some (MarketReturnImport.mr_rt mr).

Definition mr_inum (mr : MarketReturnImport.annotated) : string :=
  ds_inum (MarketReturnImport.mr_row mr).

Definition mr_amt (mr : MarketReturnImport.annotated) : Decimal :=
  ds_amt (MarketReturnImport.mr_row mr).

Definition rate_not_found (mr : MarketReturnImport.annotated) : Diagnostic :=
  StockRateNotFound (ds_stock_id (MarketReturnImport.mr_row mr)).

(** The ledger entry of the market returns of one invoice number: the first
    row gives type, date, party and tax id, the amounts are added up. *)
Definition market_return_entry (company : Company)
    (group : list MarketReturnImport.annotated) (e : Sales) : Prop :=
  ∃ mr0 rest,
    group = mr0 :: rest ∧
    company_id e = company ∧
    type e = ds_type (MarketReturnImport.mr_row mr0) ∧
    inum e = mr_inum mr0 ∧
    date_ e = ds_date (MarketReturnImport.mr_row mr0) ∧
    party_id e = ds_party_id (MarketReturnImport.mr_row mr0) ∧
    ctin e = MarketReturnImport.ctin_or_None (MarketReturnImport.mr_ctin mr0) ∧
    amt e = Qcsum (mr_amt <$> group).

(** What one round of the loop does to [sales_objects]. *)
Definition after_market_return (company : Company)
    (so : list (string * Sales)) (mr : MarketReturnImport.annotated)
  : list (string * Sales) :=
  MarketReturnImport.add_amt (mr_inum mr) (mr_amt mr)
    (if decide (mr_inum mr ∈ so.*1) then so
     else so ++
          [(mr_inum mr,
            {| company_id := company;
               type := ds_type (MarketReturnImport.mr_row mr);
               inum := mr_inum mr;
               date_ := ds_date (MarketReturnImport.mr_row mr);
               party_id := ds_party_id (MarketReturnImport.mr_row mr);
               amt := dec 0;
               ctin := MarketReturnImport.ctin_or_None
                         (MarketReturnImport.mr_ctin mr);
               discount := field_default;
               roundoff := field_default;
               tcs := field_default;
               tds := field_default |})]).

(** The loop invariant of [sales_objects], after the rows [done]. *)
Definition ledger_invariant (company : Company)
    (so : list (string * Sales)) (done : list MarketReturnImport.annotated)
  : Prop :=
  so.*1 = first_occurrences (mr_inum <$> done) ∧
  Forall (λ kv, market_return_entry company
                  (filter (λ mr, mr_inum mr = kv.1) done) kv.2) so.

(** ** More sample data *)

Module Cases.

Local Open Scope Z_scope.

(** Three ledger rows of the tenant and one of another tenant. *)
Definition ledger_rows : list Sales :=
  [Sample.ledger "sales" "A1" 2 (-10); Sample.ledger "salesreturn" "A2" 3 5;
   Sample.ledger "damage" "A3" 4 7;
   set_company "other" (Sample.ledger "sales" "A1" 2 (-10))].

(** A store with those ledger rows and one sale in the register. *)
Definition with_ledger : World :=
  Sample.store false [Sample.register "sales" "S9" 7 40] [] [] [] ledger_rows.

(** Two returns and their credit notes on a ledger without a unique key. *)
Definition returns_without_key : World :=
  Sample.store false
    [Sample.register "salesreturn" "I1" 5 10;
     Sample.register "salesreturn" "I1" 5 20]
    [Sample.credit_note "CN1" "I1" 5 4; Sample.credit_note "CN2" "I1" 5 20]
    [] [] [].

(** Market returns of two invoices; stock S9 is not in the master. *)
Definition market_returns : World :=
  Sample.store true [] []
    [Sample.market "D1" "S1" 5 100; Sample.market "D2" "S9" 6 30;
     Sample.market "D1" "S1" 7 11]
    [{| st_company := Sample.acme; st_name := "S1"; st_hsn := "3401";
        st_rt := dec 5 |}] [].

End Cases.

(** ** Master data: [StockImport] and [PartyImport]

    The two full-replace importers read a report table and merge it into a
    master table.  The party master and the two reports are not part of
    [Database]: the importers are given here as functions of the tables they
    read and write.  Under [transaction.atomic] a failed run changes
    nothing, so a run yields either the exception or the new table. *)

Record StockHsnRateReport := {
  sh_company : Company;
  sh_stock_id : string;
  sh_hsn : string;
  sh_rt : Decimal }.

Record PartyReport := {
  pr_company : Company;
  pr_name : string;
  pr_addr : string;
  pr_code : string;
  pr_master_code : string;
  pr_phone : string;
  pr_ctin : option string }.

Record Party := {
  p_company : Company;
  p_name : string;
  p_addr : string;
  p_code : string;
  p_master_code : string;
  p_phone : string;
  p_ctin : option string }.

(** The store refuses an [INSERT ... ON CONFLICT DO UPDATE] that would touch
    one row twice; the driver raises it as a [ProgrammingError]. *)
Inductive MasterException := ProgrammingError.

Section bulk_create.
Context {A K : Type} `{EqDecision K}.
Context (unique_fields : A → K) (update_fields : A → A → A).

(** The row of [batch] that conflicts with [old]. *)
Definition excluded (batch : list A) (old : A) : option A :=
  head (filter (λ new, unique_fields new = unique_fields old) batch).

(** The table after the statement: a row in conflict is updated in place,
    the other rows of the batch are appended. *)
Definition merged (table batch : list A) : list A :=
  ((λ old, from_option (update_fields old) old (excluded batch old)) <$> table)
  ++ filter (λ new, unique_fields new ∉ unique_fields <$> table) batch.

(** One statement [INSERT ... ON CONFLICT (unique_fields) DO UPDATE SET
    update_fields]. *)
Definition insert_on_conflict (table batch : list A)
  : MasterException + list A :=
  if decide (NoDup (unique_fields <$> batch))
  then inr (merged table batch)
  else inl ProgrammingError.

(** [Model.objects.bulk_create(objs, batch_size, update_conflicts=True,
    update_fields, unique_fields)]: one statement for each batch. *)
Definition bulk_create_update_conflicts (batch_size : nat)
    (table objs : list A) : MasterException + list A :=
  foldl (λ acc i,
           match acc with
           | inr table => insert_on_conflict table
                            (take batch_size (drop i objs))
           | inl e => inl e
           end)
        (inr table) (range_step (length objs) batch_size).

End bulk_create.

Module StockImport.

Definition unique_fields (s : Stock) : Company * string :=
  (st_company s, st_name s).

(** [update_fields=["hsn", "rt"]] *)
Definition update_fields (old new : Stock) : Stock :=
  {| st_company := st_company old; st_name := st_name old;
     st_hsn := st_hsn new; st_rt := st_rt new |}.

Definition objs (report : list StockHsnRateReport) (company : Company)
  : list Stock :=
  (λ obj, {| st_company := company; st_name := sh_stock_id obj;
             st_hsn := sh_hsn obj; st_rt := sh_rt obj |})
  <$> filter (λ obj, sh_company obj = company) report.

Definition run_atomic (report : list StockHsnRateReport) (company : Company)
    (table : list Stock) : MasterException + list Stock :=
  bulk_create_update_conflicts unique_fields update_fields 2000 table
    (objs report company).

End StockImport.

Module PartyImport.

Definition unique_fields (p : Party) : Company * string :=
  (p_company p, p_code p).

(** [update_fields=["addr", "master_code", "name", "phone", "ctin"]] *)
Definition update_fields (old new : Party) : Party :=
  {| p_company := p_company old; p_name := p_name new; p_addr := p_addr new;
     p_code := p_code old; p_master_code := p_master_code new;
     p_phone := p_phone new; p_ctin := p_ctin new |}.

Definition objs (report : list PartyReport) (company : Company)
  : list Party :=
  (λ obj, {| p_company := company; p_name := pr_name obj;
             p_addr := pr_addr obj; p_code := pr_code obj;
             p_master_code := pr_master_code obj; p_phone := pr_phone obj;
             p_ctin := pr_ctin obj |})
  <$> filter (λ obj, pr_company obj = company) report.

Definition run_atomic (report : list PartyReport) (company : Company)
    (table : list Party) : MasterException + list Party :=
  bulk_create_update_conflicts unique_fields update_fields 2000 table
    (objs report company).

End PartyImport.

(** The stock master of a store, replaced. *)
Definition with_stock (table : list Stock) (d : Database) : Database :=
  {| unique_inum := unique_inum d;
     salesregister_report := salesregister_report d;
     ikeagstr1_report := ikeagstr1_report d;
     dmgsht_report := dmgsht_report d;
     stock := table;
     sales := sales d;
     discounts := discounts d;
     inventory := inventory d |}.

Module Masters.

(** A rate report of two tenants, and a stock master that knows one of the
    reported items at an older rate. *)
Definition rate_report : list StockHsnRateReport :=
  [{| sh_company := Sample.acme; sh_stock_id := "S1"; sh_hsn := "3401";
      sh_rt := dec 18 |};
   {| sh_company := "other"; sh_stock_id := "S1"; sh_hsn := "3401";
      sh_rt := dec 12 |};
   {| sh_company := Sample.acme; sh_stock_id := "S2"; sh_hsn := "3304";
      sh_rt := dec 28 |}].

Definition stock_master : list Stock :=
  [{| st_company := Sample.acme; st_name := "S0"; st_hsn := "1905";
      st_rt := dec 5 |};
   {| st_company := Sample.acme; st_name := "S1"; st_hsn := "3401";
      st_rt := dec 12 |};
   {| st_company := "other"; st_name := "S2"; st_hsn := "3304";
      st_rt := dec 18 |}].

(** The same item reported twice. *)
Definition repeated_report : list StockHsnRateReport :=
  [{| sh_company := Sample.acme; sh_stock_id := "S1"; sh_hsn := "3401";
      sh_rt := dec 18 |};
   {| sh_company := Sample.acme; sh_stock_id := "S1"; sh_hsn := "3401";
      sh_rt := dec 12 |}].

Definition party_report : list PartyReport :=
  [{| pr_company := Sample.acme; pr_name := "Anand Stores"; pr_addr := "Salem";
      pr_code := "P1"; pr_master_code := "M1"; pr_phone := "1";
      pr_ctin := Some "33AAAAA0000A1Z5" |};
   {| pr_company := Sample.acme; pr_name := "Bala Traders"; pr_addr := "Erode";
      pr_code := "P2"; pr_master_code := "M2"; pr_phone := "2";
      pr_ctin := None |}].

Definition party_master : list Party :=
  [{| p_company := Sample.acme; p_name := "Anand"; p_addr := "Salem";
      p_code := "P1"; p_master_code := "M1"; p_phone := "0";
      p_ctin := None |};
   {| p_company := Sample.acme; p_name := "Chitra Agencies"; p_addr := "Karur";
      p_code := "P3"; p_master_code := "M3"; p_phone := "3";
      p_ctin := None |}].

End Masters.

(** * Properties *)

(** ** Running statements *)

Lemma bind_run {A B} (m : M A) (k : A → M B) w :
  (m ≫= k) w = match m w with
               | (w', Ok a) => k a w'
               | (w', Raise e) => (w', Raise e)
               end.
Proof. reflexivity. Qed.

Lemma delete_sales_run batch w :
  delete_sales batch w = (with_db (delete_from batch (db w)) w, Ok ()).
Proof. reflexivity. Qed.

(** ** Deleting in batches deletes the queryset *)

Lemma filter_all {A} (P : A → Prop) `{∀ x, Decision (P x)} (l : list A) :
  (∀ x, P x) → filter P l = l.
Proof.
  intros HP. induction l as [|x l IH]; [done|].
  rewrite filter_cons_True by done. by f_equal.
Qed.

Lemma delete_from_nil d : delete_from [] d = d.
Proof.
  destruct d; unfold delete_from; simpl; f_equal;
    apply filter_all; intros; apply not_elem_of_nil.
Qed.

Lemma delete_from_app v1 v2 d :
  delete_from v2 (delete_from v1 d) = delete_from (v1 ++ v2) d.
Proof.
  unfold delete_from; simpl; f_equal; rewrite list_filter_filter;
    apply list_filter_iff; intros x; rewrite ?fmap_app, !not_elem_of_app; tauto.
Qed.

Lemma delete_from_ext v1 v2 d :
  (∀ x, x ∈ v1 ↔ x ∈ v2) → delete_from v1 d = delete_from v2 d.
Proof.
  intros Hv.
  assert (∀ r, r ∈ sales_ref <$> v1 ↔ r ∈ sales_ref <$> v2) as Hr.
  { intros r. rewrite !list_elem_of_fmap.
    split; intros (s & -> & Hs); exists s; (split; [done|]); by apply Hv. }
  unfold delete_from; f_equal; apply list_filter_iff; intros x.
  - by rewrite Hv.
  - by rewrite Hr.
  - by rewrite Hr.
Qed.

Lemma batch_chain_run n (pks : list Sales) starts w :
  foldr (λ i rest, delete_sales (take n (drop i pks));; rest) (mret ()) starts w
  = (with_db (delete_from (starts ≫= λ i, take n (drop i pks)) (db w)) w,
     Ok ()).
Proof.
  revert w; induction starts as [|i starts IH]; intros w; simpl.
  - rewrite delete_from_nil. by destruct w.
  - rewrite bind_run, delete_sales_run, IH. simpl.
    by rewrite delete_from_app.
Qed.

Lemma elem_of_batches {A} (n : nat) (pks : list A) x :
  (0 < n)%nat →
  x ∈ (range_step (length pks) n ≫= λ i, take n (drop i pks)) ↔ x ∈ pks.
Proof.
  intros Hn. rewrite list_elem_of_bind. split.
  - intros (i & (j & Hj & _)%elem_of_take & _).
    rewrite lookup_drop in Hj. by eapply list_elem_of_lookup_2.
  - intros (p & Hp)%list_elem_of_lookup.
    pose proof (lookup_lt_Some _ _ _ Hp) as Hlt.
    exists ((p / n) * n)%nat. split.
    + apply list_elem_of_lookup. exists (p mod n)%nat.
      rewrite lookup_take_lt by (apply Nat.mod_upper_bound; lia).
      rewrite lookup_drop. rewrite <- Hp. f_equal.
      pose proof (Nat.div_mod_eq p n). lia.
    + unfold range_step. apply list_elem_of_fmap. exists (p / n)%nat.
      split; [done|]. apply elem_of_seq. split; [lia|]. simpl.
      apply Nat.Div0.div_lt_upper_bound.
      pose proof (Nat.div_mod_eq (length pks + n - 1) n).
      pose proof (Nat.mod_upper_bound (length pks + n - 1) n). nia.
Qed.

Lemma batch_delete_run queryset n w :
  (0 < n)%nat →
  batch_delete queryset n w = (with_db (delete_from queryset (db w)) w, Ok ()).
Proof.
  intros Hn. unfold batch_delete. rewrite batch_chain_run. do 2 f_equal.
  apply delete_from_ext. intros x. by apply elem_of_batches.
Qed.

Lemma SalesImport_delete_before_insert_run company args w :
  SalesImport.delete_before_insert company args w =
  (with_db (delete_from (inums_qs company args SalesImport.types (db w)) (db w)) w,
   Ok ()).
Proof.
  unfold SalesImport.delete_before_insert. rewrite bind_run. simpl.
  by rewrite batch_delete_run by lia.
Qed.

(** ** The second return loop *)

Lemma resolve_return_run q obj w :
  SalesImport.resolve_return q obj w =
  match getitem [] q (register_key obj) with
  | [] =>
      ({| db := db w;
          stdout := stdout w
                    ++ [NoMatchingCreditNote (sr_inum obj) (sr_date obj)] |},
       Raise IndexError)
  | i :: rest =>
      (w, Ok (set_sr_inum i (set_sr_roundoff (- sr_roundoff obj) obj),
              <[register_key obj := rest]> q))
  end.
Proof.
  unfold SalesImport.resolve_return, register_key. simpl.
  destruct (getitem [] q (sr_date obj, sr_inum obj)); reflexivity.
Qed.

(** A loop that ends normally printed nothing and did not touch the store. *)
Lemma resolve_returns_Ok q objs w w' r :
  SalesImport.resolve_returns q objs w = (w', Ok r) →
  w' = w ∧ ∀ w0, SalesImport.resolve_returns q objs w0 = (w0, Ok r).
Proof.
  revert q w w' r. induction objs as [|obj objs IH]; intros q w w' r; simpl.
  - intros [= <- <-]. done.
  - rewrite bind_run, resolve_return_run.
    destruct (getitem [] q (register_key obj)) as [|i rest] eqn:Hq; [done|].
    rewrite bind_run.
    destruct (SalesImport.resolve_returns _ objs w)
      as [w1 [[objs' q']|e]] eqn:Hr; [|done].
    intros [= <- <-]. apply IH in Hr as [-> Hr]. split; [done|].
    intros w0. by rewrite bind_run, resolve_return_run, Hq, bind_run, Hr.
Qed.

(** The only exception of the loop is the [IndexError] of [pop(0)]. *)
Lemma resolve_returns_Raise q objs w w' e :
  SalesImport.resolve_returns q objs w = (w', Raise e) →
  e = IndexError ∧ db w' = db w.
Proof.
  revert q w w' e. induction objs as [|obj objs IH]; intros q w w' e; simpl.
  - done.
  - rewrite bind_run, resolve_return_run.
    destruct (getitem [] q (register_key obj)) as [|i rest] eqn:Hq.
    + by intros [= <- <-].
    + rewrite bind_run.
      destruct (SalesImport.resolve_returns _ objs w)
        as [w1 [[objs' q']|e']] eqn:Hr; [done|].
      intros [= <- <-]. by apply IH in Hr.
Qed.

(** Every resolved row is its register row with the roundoff negated and
    the invoice number replaced. *)
Lemma resolve_returns_shape q objs w w' resolved q' :
  SalesImport.resolve_returns q objs w = (w', Ok (resolved, q')) →
  Forall2 (λ obj obj', ∃ i,
             obj' = set_sr_inum i (set_sr_roundoff (- sr_roundoff obj) obj))
          objs resolved.
Proof.
  revert q w w' resolved q'.
  induction objs as [|obj objs IH]; intros q w w' resolved q'; simpl.
  - intros [= <- <- <-]. constructor.
  - rewrite bind_run, resolve_return_run.
    destruct (getitem [] q (register_key obj)) as [|i rest] eqn:Hq; [done|].
    rewrite bind_run.
    destruct (SalesImport.resolve_returns _ objs w)
      as [w1 [[objs' q1]|e]] eqn:Hr; [|done].
    intros [= <- <- <-]. constructor; [by exists i|by eapply IH].
Qed.

(** First in, first out: for every key, what the rows of that key were
    handed, followed by what is left, is what was queued. *)
Lemma resolve_returns_fifo q objs w w' resolved q' k :
  SalesImport.resolve_returns q objs w = (w', Ok (resolved, q')) →
  getitem [] q k = handed_out k objs resolved ++ getitem [] q' k.
Proof.
  revert q w w' resolved q'.
  induction objs as [|obj objs IH]; intros q w w' resolved q'; simpl.
  - by intros [= <- <- <-].
  - rewrite bind_run, resolve_return_run.
    destruct (getitem [] q (register_key obj)) as [|i rest] eqn:Hq; [done|].
    rewrite bind_run.
    destruct (SalesImport.resolve_returns _ objs w)
      as [w1 [[objs' q1]|e]] eqn:Hr; [|done].
    intros [= <- <- <-]. apply IH in Hr.
    unfold handed_out in *. simpl. rewrite filter_cons. simpl.
    unfold getitem in *.
    destruct (decide (register_key obj = k)) as [<-|Hne]; simpl.
    + rewrite lookup_insert_eq in Hr. simpl in Hr. by rewrite Hq, Hr.
    + by rewrite lookup_insert_ne in Hr.
Qed.

(** ** The first return loop *)

Lemma queue_credit_note_getitem q obj k :
  getitem [] (SalesImport.queue_credit_note q obj) k =
  if decide (inventory_key obj = k)
  then (if decide (gs_credit_note_no obj ∈ getitem [] q k)
        then getitem [] q k
        else getitem [] q k ++ [gs_credit_note_no obj])
  else getitem [] q k.
Proof.
  unfold SalesImport.queue_credit_note, inventory_key. simpl.
  destruct (decide ((gs_date obj, gs_original_invoice_no obj) = k)) as [<-|Hne].
  - destruct (decide (gs_credit_note_no obj ∈ _)); [done|].
    unfold getitem at 1. by rewrite lookup_insert_eq.
  - destruct (decide (gs_credit_note_no obj ∈ _)); [done|].
    unfold getitem at 1. by rewrite lookup_insert_ne.
Qed.

Lemma foldl_queue_credit_note q objs k :
  getitem [] (foldl SalesImport.queue_credit_note q objs) k =
  foldl (λ acc x, if decide (x ∈ acc) then acc else acc ++ [x])
        (getitem [] q k)
        (gs_credit_note_no <$> filter (λ o, inventory_key o = k) objs).
Proof.
  revert q. induction objs as [|obj objs IH]; intros q; simpl; [done|].
  rewrite IH, queue_credit_note_getitem, filter_cons.
  destruct (decide (inventory_key obj = k)); simpl; done.
Qed.

Lemma queue_credit_notes_getitem objs k :
  getitem [] (SalesImport.queue_credit_notes objs) k =
  first_occurrences
    (gs_credit_note_no <$> filter (λ o, inventory_key o = k) objs).
Proof.
  unfold SalesImport.queue_credit_notes. by rewrite foldl_queue_credit_note.
Qed.

Lemma foldl_first_NoDup (acc l : list string) :
  NoDup acc →
  NoDup (foldl (λ acc x, if decide (x ∈ acc) then acc else acc ++ [x]) acc l).
Proof.
  revert acc. induction l as [|x l IH]; intros acc Hacc; simpl; [done|].
  apply IH. destruct (decide (x ∈ acc)); [done|].
  apply NoDup_app. split_and!; [done| |apply NoDup_singleton].
  intros y Hy ->%list_elem_of_singleton. done.
Qed.

Lemma foldl_first_elem_of (acc l : list string) x :
  x ∈ foldl (λ acc x, if decide (x ∈ acc) then acc else acc ++ [x]) acc l
  ↔ x ∈ acc ∨ x ∈ l.
Proof.
  revert acc. induction l as [|y l IH]; intros acc; simpl.
  - rewrite elem_of_nil. tauto.
  - rewrite IH, elem_of_cons. destruct (decide (y ∈ acc)).
    + split; [tauto|]. intros [?|[->|?]]; tauto.
    + rewrite elem_of_app, list_elem_of_singleton. tauto.
Qed.

(** ** Claim-service sums *)

Lemma Qcsum_cons x xs : Qcsum (x :: xs) = x + Qcsum xs.
Proof. reflexivity. Qed.

Lemma foldl_claimservice_sums txs taxs objs i :
  let sums :=
    foldl (λ '(claimservice_txval, claimservice_tax) inv_obj,
             (<[gs_inum inv_obj :=
                  getitem (dec 0) claimservice_txval (gs_inum inv_obj)
                  + gs_txval inv_obj]> claimservice_txval,
              <[gs_inum inv_obj :=
                  getitem (dec 0) claimservice_tax (gs_inum inv_obj)
                  + dec 2 * gs_txval inv_obj * gs_rt inv_obj / dec 100]>
                claimservice_tax))
          (txs, taxs) objs in
  getitem (dec 0) sums.1 i =
    getitem (dec 0) txs i
    + Qcsum (gs_txval <$> filter (λ o, gs_inum o = i) objs) ∧
  getitem (dec 0) sums.2 i =
    getitem (dec 0) taxs i
    + Qcsum (line_tax <$> filter (λ o, gs_inum o = i) objs).
Proof.
  revert txs taxs. induction objs as [|obj objs IH]; intros txs taxs; simpl.
  - unfold Qcsum; simpl. change (dec 0) with 0. by rewrite !Qcplus_0_r.
  - destruct (IH (<[gs_inum obj :=
                      getitem (dec 0) txs (gs_inum obj) + gs_txval obj]> txs)
                 (<[gs_inum obj :=
                      getitem (dec 0) taxs (gs_inum obj)
                      + dec 2 * gs_txval obj * gs_rt obj / dec 100]> taxs))
      as [-> ->].
    rewrite filter_cons. unfold getitem.
    destruct (decide (gs_inum obj = i)) as [<-|Hne].
    + rewrite !lookup_insert_eq, !fmap_cons, !Qcsum_cons. simpl.
      unfold line_tax. by rewrite !Qcplus_assoc.
    + by rewrite !lookup_insert_ne.
Qed.

Lemma claimservice_sums_getitem objs i :
  getitem (dec 0) (SalesImport.claimservice_sums objs).1 i =
    Qcsum (gs_txval <$> filter (λ o, gs_inum o = i) objs) ∧
  getitem (dec 0) (SalesImport.claimservice_sums objs).2 i =
    Qcsum (line_tax <$> filter (λ o, gs_inum o = i) objs).
Proof.
  destruct (foldl_claimservice_sums ∅ ∅ objs i) as [H1 H2].
  unfold SalesImport.claimservice_sums. rewrite H1, H2.
  unfold getitem. rewrite !lookup_empty. simpl.
  change (dec 0) with 0. by rewrite !Qcplus_0_l.
Qed.


(** [distinct("inum")] keeps exactly one row of every invoice number. *)
Lemma distinct_inum_filter objs i :
  filter (λ o, gs_inum o = i) (SalesImport.distinct_inum objs) =
  take 1 (filter (λ o, gs_inum o = i) objs).
Proof.
  induction objs as [|obj objs IH]; simpl; [done|].
  rewrite !filter_cons.
  destruct (decide (gs_inum obj = i)) as [Heq|Hne]; simpl.
  - f_equal. rewrite take_0. rewrite list_filter_filter. clear IH.
    induction (SalesImport.distinct_inum objs) as [|o l IHl]; [done|].
    rewrite filter_cons_False; [done|]. intros [? ?]. congruence.
  - rewrite <- IH. rewrite list_filter_filter. apply list_filter_iff.
    intros o. split; [tauto|]. intros ->. done.
Qed.

(** ** [SalesImport.run_atomic] when it commits *)

Lemma SalesImport_run_atomic_Ok company args w w' :
  SalesImport.run_atomic company args w = (w', Ok ()) →
  let d := db w in
  let d1 := delete_from (inums_qs company args SalesImport.types d) d in
  let claims :=
    SalesImport.claimservice_objs company
      (SalesImport.claimservice_inventory_objs company args d) in
  ∃ resolved q',
    (∀ w0, SalesImport.resolve_returns
             (SalesImport.queue_credit_notes
                (SalesImport.salesreturn_inventory_objs company args d))
             (SalesImport.salesreturn_objs company args d) w0
           = (w0, Ok (resolved, q'))) ∧
    stdout w' = stdout w ∧
    sales (db w') =
      sales d1 ++
      (SalesImport.model_sales_obj company
         <$> SalesImport.sales_objs company args d ++ resolved ++ claims) ∧
    discounts (db w') =
      discounts d1 ++
      ((filter (λ r, ¬ SalesImport.no_discount r)
               (SalesImport.sales_objs company args d)
          ++ resolved ++ claims)
       ≫= SalesImport.model_discount_objs company) ∧
    inventory (db w') =
      inventory d1 ++
      (SalesImport.model_inventory_obj company
         <$> SalesImport.sales_inventory_objs company args d
             ++ (SalesImport.inventory_return_obj
                   <$> SalesImport.salesreturn_inventory_objs company args d)
             ++ SalesImport.claimservice_inventory_objs company args d).
Proof.
  intros Hrun d d1 claims.
  unfold SalesImport.run_atomic, transaction_atomic in Hrun.
  destruct (SalesImport.run_atomic_body company args w)
    as [w1 [[]|e]] eqn:Hbody; [|done].
  injection Hrun as ->.
  unfold SalesImport.run_atomic_body in Hbody.
  rewrite bind_run, SalesImport_delete_before_insert_run in Hbody.
  rewrite bind_run in Hbody. simpl in Hbody. rewrite bind_run in Hbody.
  match type of Hbody with
  | context [SalesImport.resolve_returns ?q ?objs ?w0] =>
      destruct (SalesImport.resolve_returns q objs w0)
        as [w2 [[resolved q']|e]] eqn:Hres; [|done]
  end.
  apply resolve_returns_Ok in Hres as [-> Hres].
  exists resolved, q'. split; [exact Hres|].
  unfold bulk_create_sales in Hbody. rewrite !bind_run in Hbody.
  simpl in Hbody.
  destruct (unique_inum (db w) && _) eqn:Hu; [done|].
  simpl in Hbody. by injection Hbody as <-.
Qed.

(** ** The market-return loop *)

Lemma txval_of_run amt rt w :
  MarketReturnImport.txval_of amt rt w =
  if decide (rt = dec 0) then (w, Ok (dec 0))
  else if decide (dec 100 + dec 2 * rt = dec 0)
       then (w, Raise ZeroDivisionError)
       else (w, Ok (round3 (amt * dec 100 / (dec 100 + dec 2 * rt)))).
Proof.
  unfold MarketReturnImport.txval_of. by repeat case_decide.
Qed.

Lemma market_return_loop_Ok company acc mrs w w' acc' :
  MarketReturnImport.market_return_loop company acc mrs w = (w', Ok acc') →
  db w' = db w ∧
  ∃ lines, acc'.2 = acc.2 ++ lines ∧
    Forall2 (market_return_line company)
      (filter (λ mr, is_Some (MarketReturnImport.mr_rt mr)) mrs) lines.
Proof.
  revert acc w. induction mrs as [|mr mrs IH]; intros [so io] w; simpl.
  - intros [= <- <-]. split; [done|]. exists []. simpl.
    by rewrite app_nil_r.
  - rewrite bind_run. unfold MarketReturnImport.market_return.
    rewrite filter_cons.
    destruct (MarketReturnImport.mr_rt mr) as [rt|] eqn:Hrt.
    + rewrite bind_run, txval_of_run.
      destruct (decide (is_Some (Some rt))) as [_|[]]; [|by eexists].
      destruct (decide (rt = dec 0)) as [Hz|Hz];
        [|destruct (decide (dec 100 + dec 2 * rt = dec 0)); [done|]];
        simpl; intros Hloop; apply IH in Hloop as (Hdb & lines & Hio & Hall);
        (split; [done|]); simpl in Hio; rewrite <- app_assoc in Hio;
        eexists; (split; [exact Hio|]); simpl;
        (constructor; [|done]); exists rt; (split; [done|]); simpl;
        by rewrite ?decide_True, ?decide_False by done.
    + destruct (decide (is_Some None)) as [[? [=]]|_].
      rewrite bind_run. simpl. intros Hloop.
      apply IH in Hloop as (Hdb & lines & Hio & Hall). eauto.
Qed.

Lemma market_return_loop_Raise company acc mrs w w' e :
  MarketReturnImport.market_return_loop company acc mrs w = (w', Raise e) →
  e = ZeroDivisionError ∧ db w' = db w.
Proof.
  revert acc w. induction mrs as [|mr mrs IH]; intros [so io] w; simpl; [done|].
  rewrite bind_run. unfold MarketReturnImport.market_return.
  destruct (MarketReturnImport.mr_rt mr) as [rt|] eqn:Hrt.
  - rewrite bind_run, txval_of_run.
    destruct (decide (rt = dec 0)) as [Hz|Hz];
      [|destruct (decide (dec 100 + dec 2 * rt = dec 0))]; simpl.
    + apply IH.
    + by intros [= <- <-].
    + apply IH.
  - rewrite bind_run. simpl. intros Hloop. by apply IH in Hloop.
Qed.


(** ** Rounding to three places *)

Lemma this_dec n : (this (dec n) == inject_Z n)%Q.
Proof. apply Qred_correct. Qed.

Lemma this_mult (a b : Qc) : (this (a * b) == this a * this b)%Q.
Proof. apply Qred_correct. Qed.

Lemma this_minus (a b : Qc) : (this (a - b) == this a - this b)%Q.
Proof.
  unfold Qcminus, Qcplus, Qcopp. simpl. by rewrite !Qred_correct.
Qed.

Lemma this_half : (this (dec 1 / dec 2) == 1 # 2)%Q.
Proof. reflexivity. Qed.

(** [round3 x] is a multiple n / 1000 of one thousandth that is nearest to
    [x]: n - 1/2 <= 1000 x <= n + 1/2. *)
Lemma round3_nearest x :
  ∃ n : Z, round3 x = dec n / dec 1000 ∧
           dec (2 * n - 1) ≤ dec 2000 * x ∧ dec 2000 * x ≤ dec (2 * n + 1).
Proof.
  unfold round3.
  set (y := x * dec 1000). set (f := Qfloor y).
  pose proof (Qfloor_le y) as Hlo. pose proof (Qlt_floor y) as Hhi.
  fold f in Hlo, Hhi. rewrite inject_Z_plus in Hhi. clearbody f.
  assert (this y == this x * 1000)%Q as Hy.
  { unfold y. by rewrite this_mult, this_dec. }
  assert (this (y - dec f) == this x * 1000 - inject_Z f)%Q as Hr.
  { by rewrite this_minus, this_dec, Hy. }
  rewrite Hy in Hlo, Hhi. change (inject_Z 1) with 1%Q in Hhi. clearbody y.
  assert (∀ n : Z, (2 * inject_Z n - 1 <= 2000 * this x)%Q →
                   (2000 * this x <= 2 * inject_Z n + 1)%Q →
     dec (2 * n - 1) ≤ dec 2000 * x ∧ dec 2000 * x ≤ dec (2 * n + 1)) as Hfin.
  { intros n H1 H2. unfold Qcle. rewrite !this_mult, !this_dec.
    unfold Z.sub. rewrite !inject_Z_plus, !inject_Z_mult, inject_Z_opp.
    change (inject_Z 2000) with 2000%Q; change (inject_Z 1) with 1%Q;
    change (inject_Z 2) with 2%Q. lra. }
  destruct (decide (y - dec f < dec 1 / dec 2)) as [Hlt|Hge].
  - exists f. split; [done|]. unfold Qclt in Hlt. rewrite Hr, this_half in Hlt.
    apply Hfin; lra.
  - destruct (decide (dec 1 / dec 2 < y - dec f)) as [Hgt|Hle].
    + exists (f + 1)%Z. split; [done|].
      unfold Qclt in Hgt. rewrite Hr, this_half in Hgt.
      apply Hfin; rewrite inject_Z_plus; change (inject_Z 1) with 1%Q; lra.
    + apply Qcnot_lt_le in Hge, Hle. unfold Qcle in Hge, Hle.
      rewrite Hr, this_half in Hge, Hle.
      destruct (Z.even f).
      * exists f. split; [done|]. apply Hfin; lra.
      * exists (f + 1)%Z. split; [done|].
        apply Hfin; rewrite inject_Z_plus; change (inject_Z 1) with 1%Q; lra.
Qed.

(** Ties go to the even thousandth: 0.0025 to 0.002, 0.0075 to 0.008,
    -0.0025 to -0.002; and 1.234567 to 1.235. *)
Example round3_ties :
  round3 <$> [dec 5 / dec 2000; dec 15 / dec 2000; dec (-5) / dec 2000;
              dec 1234567 / dec 1000000]
  = [dec 2 / dec 1000; dec 8 / dec 1000; dec (-2) / dec 1000;
     dec 1235 / dec 1000].
Proof. repeat f_equal; apply Qc_is_canon; reflexivity. Qed.

(** * The claims *)

(** ** Atomicity *)

(** C8. A date-ranged importer whose delete, transform or insert phase
    raises leaves the store exactly as it found it, the rows removed by
    delete-before-insert included, and raises the same exception to its
    caller. *)
Theorem failure_rolls_back cls company args w w1 e :
  run_atomic_body cls company args w = (w1, Raise e) →
  ∃ w', run_atomic cls company args w = (w', Raise e) ∧ db w' = db w.
Proof.
  intros Hbody. exists {| db := db w; stdout := stdout w1 |}.
  split; [|done].
  destruct cls; simpl in *;
    unfold SalesImport.run_atomic, MarketReturnImport.run_atomic,
      transaction_atomic; by rewrite Hbody.
Qed.

(** Inside the transaction the ledger row of day 3 is already deleted when
    [pop(0)] raises. *)
Example unmatched_in_flight :
  let w1 := (SalesImport.run_atomic_body Sample.acme Sample.january
               (Sample.unmatched true)).1 in
  sales (db w1) = [] ∧
  sales (db (Sample.unmatched true)) = [Sample.ledger "sales" "I0" 3 (-70)].
Proof. by vm_compute. Qed.

Lemma failure_rolls_back_witness :
  ∃ w', run_atomic SalesImport_class Sample.acme Sample.january
          (Sample.unmatched true) = (w', Raise IndexError) ∧
        db w' = db (Sample.unmatched true).
Proof.
  apply (failure_rolls_back SalesImport_class _ _ _
           (SalesImport.run_atomic_body Sample.acme Sample.january
              (Sample.unmatched true)).1).
  vm_compute. reflexivity.
Defined.

(** ** Unmatched returns *)

(** C1 (fails on the code). A register return with an empty credit-note
    queue prints its diagnostic and then [inums.pop(0)] raises [IndexError]:
    the import aborts, no ledger entry is written for the row and the store
    is rolled back. *)
Theorem unmatched_return_raises (unique : bool) :
  SalesImport.run_atomic Sample.acme Sample.january (Sample.unmatched unique)
  = ({| db := db (Sample.unmatched unique);
        stdout := [NoMatchingCreditNote "I1" 5] |},
     Raise IndexError).
Proof. destruct unique; vm_compute; reflexivity. Qed.

(** The same at every register row that meets an empty queue. *)
Lemma resolve_return_empty_queue q obj w :
  getitem [] q (register_key obj) = [] →
  SalesImport.resolve_return q obj w =
  ({| db := db w;
      stdout := stdout w ++ [NoMatchingCreditNote (sr_inum obj) (sr_date obj)] |},
   Raise IndexError).
Proof. intros Hq. by rewrite resolve_return_run, Hq. Qed.

(** A queue that is empty stays empty until its row is reached. *)
Lemma resolve_returns_unmatched q objs obj w :
  obj ∈ objs →
  getitem [] q (register_key obj) = [] →
  ∃ w', SalesImport.resolve_returns q objs w = (w', Raise IndexError).
Proof.
  revert q w. induction objs as [|o objs IH]; intros q w Hin Hq.
  - by apply elem_of_nil in Hin.
  - simpl. rewrite bind_run, resolve_return_run.
    destruct (getitem [] q (register_key o)) as [|i rest] eqn:Ho;
      [by eexists|].
    apply elem_of_cons in Hin as [->|Hin]; [congruence|].
    rewrite bind_run.
    destruct (IH (<[register_key o := rest]> q) w Hin) as [w' Hw'].
    + unfold getitem in *. rewrite lookup_insert_ne; [done|].
      intros Heq. rewrite Heq, Hq in Ho. done.
    + rewrite Hw'. by eexists.
Qed.

(** So [SalesImport.run_atomic] raises [IndexError], and writes nothing,
    whenever a register return of the window has no credit note under its
    (date, invoice number). *)
Lemma unmatched_return_aborts company args w obj :
  obj ∈ SalesImport.salesreturn_objs company args (db w) →
  getitem []
    (SalesImport.queue_credit_notes
       (SalesImport.salesreturn_inventory_objs company args (db w)))
    (register_key obj) = [] →
  ∃ w', SalesImport.run_atomic company args w = (w', Raise IndexError) ∧
        db w' = db w.
Proof.
  intros Hin Hq.
  unfold SalesImport.run_atomic, transaction_atomic,
    SalesImport.run_atomic_body.
  rewrite bind_run, SalesImport_delete_before_insert_run, bind_run. simpl.
  rewrite bind_run.
  match goal with
  | |- context [SalesImport.resolve_returns ?q ?objs ?w0] =>
      destruct (resolve_returns_unmatched q objs obj w0 Hin Hq) as [w' ->]
  end.
  by eexists.
Qed.

(** ** Re-running and the window of [MarketReturnImport] *)


(** [SalesImport.run_atomic] does delete first: a second run over the same
    reports leaves the store of the first. *)
Example sales_import_rerun :
  let once := SalesImport.run_atomic Sample.acme Sample.january
                Sample.three_returns in
  let twice := SalesImport.run_atomic Sample.acme Sample.january once.1 in
  once.2 = Ok () ∧ twice.2 = Ok () ∧ db twice.1 = db once.1 ∧
  length (sales (db once.1)) = 3%nat.
Proof. by vm_compute. Qed.

(** C3 (fails on the code). [MarketReturnImport.run_atomic] does not filter
    the report by date: its result is the same for every window, and a row
    of day 5 is imported by a run over a window that does not contain
    day 5. *)
Theorem market_return_ignores_window :
  (∀ company args args',
     MarketReturnImport.run_atomic company args
     = MarketReturnImport.run_atomic company args') ∧
  in_range Sample.february 5 = false ∧
  ∀ unique,
    let r := MarketReturnImport.run_atomic Sample.acme Sample.february
               (Sample.one_market_return unique 5) in
    r.2 = Ok () ∧
    (λ s, (inum s, date_ s)) <$> sales (db r.1) = [("D1", 5%Z)] ∧
    i_bill_id <$> inventory (db r.1) = ["D1"].
Proof.
  split; [done|]. split; [done|]. by intros []; vm_compute.
Qed.

(** [SalesImport] does keep to its window: every row it reads belongs to
    the tenant and is dated inside the range. *)
Lemma SalesImport_reads_window company args d :
  (∀ r, r ∈ SalesImport.sales_qs company args d →
        sr_company r = company ∧ in_range args (sr_date r) = true) ∧
  (∀ r, r ∈ SalesImport.inventory_qs company args d →
        gs_company r = company ∧ in_range args (gs_date r) = true).
Proof.
  split; intros r [[? ?%Is_true_true] _]%list_elem_of_filter; done.
Qed.

(** ** Ledger emission *)

Lemma elem_of_order_by {A} (key : A → Decimal) (l : list A) x :
  x ∈ order_by key l ↔ x ∈ l.
Proof. unfold order_by. by rewrite merge_sort_Permutation. Qed.

Global Instance key_le_total {A} (key : A → Decimal) : Total (key_le key).
Proof. intros a b. unfold key_le. apply (total Qcle). Qed.


Lemma sales_objs_type company args d :
  Forall (λ r, sr_type r = "sales") (SalesImport.sales_objs company args d).
Proof. apply Forall_forall. by intros r [? _]%list_elem_of_filter. Qed.

Lemma salesreturn_objs_type company args d :
  Forall (λ r, sr_type r = "salesreturn")
         (SalesImport.salesreturn_objs company args d).
Proof.
  apply Forall_forall. intros r Hr.
  apply elem_of_order_by in Hr. by apply list_elem_of_filter in Hr as [? _].
Qed.

Lemma claimservice_objs_type company objs :
  Forall (λ r, sr_type r = "claimservice")
         (SalesImport.claimservice_objs company objs).
Proof.
  unfold SalesImport.claimservice_objs. apply Forall_fmap, Forall_forall.
  by intros.
Qed.

Lemma model_sales_obj_signs company qs :
  sr_type qs ≠ "salesreturn" →
  ledger_signs qs (SalesImport.model_sales_obj company qs).
Proof.
  intros Hty. unfold ledger_signs. simpl. by rewrite decide_False.
Qed.

Lemma model_sales_obj_return_signs company qs i :
  sr_type qs = "salesreturn" →
  ledger_signs qs
    (SalesImport.model_sales_obj company
       (set_sr_inum i (set_sr_roundoff (- sr_roundoff qs) qs))).
Proof.
  intros Hty. unfold ledger_signs. simpl. by rewrite decide_True.
Qed.

Lemma Forall2_with_l {A B} (P : A → Prop) (R : A → B → Prop) l k :
  Forall P l → Forall2 R l k → Forall2 (λ x y, P x ∧ R x y) l k.
Proof.
  intros HP HR. induction HR; [constructor|].
  apply Forall_cons in HP as [? ?]. constructor; auto.
Qed.

(** C4. When [SalesImport.run_atomic] commits, the ledger gains one entry
    for every register row of the window that is a sale or a return (and one
    for every synthetic claim-service row); the entry of a row has amount = -A,
    discount = -D, roundoff = R for a sale and -R for a return, tds = -T and
    tcs = C. *)
Theorem ledger_entry_signs company args w w' :
  SalesImport.run_atomic company args w = (w', Ok ()) →
  let d := db w in
  ∃ entries synthetic,
    sales (db w') =
      sales (delete_from (inums_qs company args SalesImport.types d) d)
      ++ entries ++ synthetic ∧
    Forall2 ledger_signs
      (SalesImport.sales_objs company args d
       ++ SalesImport.salesreturn_objs company args d) entries ∧
    Forall2 ledger_signs
      (SalesImport.claimservice_objs company
         (SalesImport.claimservice_inventory_objs company args d)) synthetic ∧
    ∀ r, r ∈ SalesImport.sales_objs company args d
             ++ SalesImport.salesreturn_objs company args d
         ↔ r ∈ salesregister_report d ∧ sr_company r = company ∧
           in_range args (sr_date r) = true ∧
           (sr_type r = "sales" ∨ sr_type r = "salesreturn").
Proof.
  intros Hrun d.
  destruct (SalesImport_run_atomic_Ok _ _ _ _ Hrun)
    as (resolved & q' & Hres & _ & Hsales & _).
  exists (SalesImport.model_sales_obj company
            <$> SalesImport.sales_objs company args d ++ resolved),
         (SalesImport.model_sales_obj company
            <$> SalesImport.claimservice_objs company
                  (SalesImport.claimservice_inventory_objs company args d)).
  split_and!.
  - fold d in Hsales. by rewrite Hsales, <- fmap_app, <- app_assoc.
  - rewrite fmap_app. apply Forall2_app.
    + apply Forall2_fmap_r, Forall_Forall2_diag.
      eapply Forall_impl; [apply sales_objs_type|].
      intros r Hr. apply model_sales_obj_signs. by rewrite Hr.
    + apply Forall2_fmap_r.
      specialize (Hres w). apply resolve_returns_shape in Hres.
      eapply Forall2_impl;
        [apply (Forall2_with_l _ _ _ _ (salesreturn_objs_type company args d)
                  Hres)|].
      intros r r' [Hty [i ->]]. by apply model_sales_obj_return_signs.
  - apply Forall2_fmap_r, Forall_Forall2_diag.
    eapply Forall_impl; [apply claimservice_objs_type|].
    intros r Hr. apply model_sales_obj_signs. by rewrite Hr.
  - intros r. rewrite elem_of_app.
    unfold SalesImport.salesreturn_objs. rewrite elem_of_order_by.
    unfold SalesImport.sales_objs, SalesImport.sales_qs.
    rewrite !list_elem_of_filter, Is_true_true. tauto.
Qed.

Lemma ledger_entry_signs_witness :
  ∃ entries,
    sales (db (SalesImport.run_atomic Sample.acme Sample.january
                 Sample.three_returns).1) = entries ∧
    Forall2 ledger_signs
      (SalesImport.salesreturn_objs Sample.acme Sample.january
         (db Sample.three_returns)) entries.
Proof.
  destruct (ledger_entry_signs Sample.acme Sample.january Sample.three_returns
              (SalesImport.run_atomic Sample.acme Sample.january
                 Sample.three_returns).1)
    as (entries & synthetic & Hsales & Hsigns & Hsyn & _).
  { vm_compute. reflexivity. }
  apply Forall2_nil_inv_l in Hsyn as ->.
  exists entries. split; [|exact Hsigns].
  rewrite Hsales, app_nil_r. reflexivity.
Defined.

(** ** Discount emission *)



Lemma filter_fmap_comm {A B} (f : A → B) (P : B → Prop)
    `{∀ y, Decision (P y)} (l : list A) :
  filter P (f <$> l) = f <$> filter (λ x, P (f x)) l.
Proof.
  induction l as [|x l IH]; [done|].
  rewrite fmap_cons, !filter_cons, IH. simpl.
  by destruct (decide (P (f x))).
Qed.





(** One line item for the sale with the [btpr] discount, none for the
    other sale. *)
Example discounted_items :
  (λ x, (d_bill_id x, d_sub_type x, this (d_amt x)))
  <$> discounts (db (SalesImport.run_atomic Sample.acme Sample.january
                       Sample.discounted).1)
  = [("S1", "btpr", (-4)%Q)].
Proof. by vm_compute. Qed.

(** ** Return matching *)



(** Returns of 10, 20 and 30 against credit notes CN1 (5), CN2 (15) and
    CN3 (40): CN1 goes to 10, CN2 to 20, CN3 to 30. *)
Example three_returns_paired :
  let r := SalesImport.run_atomic Sample.acme Sample.january
             Sample.three_returns in
  r.2 = Ok () ∧
  (λ s, (inum s, this (amt s))) <$> sales (db r.1)
  = [("CN1", (-10)%Q); ("CN2", (-20)%Q); ("CN3", (-30)%Q)].
Proof. by vm_compute. Qed.

(** C10. Each queue of [date_original_inum_to_cn] holds a credit-note
    number at most once: it is the list of the credit notes of its key
    without repetitions, only the first row of a credit note appending an
    entry.  Hence the register returns of one key are handed pairwise
    different credit notes. *)
Theorem credit_note_queued_once objs k :
  NoDup (getitem [] (SalesImport.queue_credit_notes objs) k) ∧
  getitem [] (SalesImport.queue_credit_notes objs) k
  = first_occurrences
      (gs_credit_note_no <$> filter (λ o, inventory_key o = k) objs) ∧
  (∀ q obj,
     gs_credit_note_no obj ∈ getitem [] q (inventory_key obj) →
     SalesImport.queue_credit_note q obj = q) ∧
  ∀ returns w w' resolved q',
    SalesImport.resolve_returns (SalesImport.queue_credit_notes objs)
      returns w = (w', Ok (resolved, q')) →
    NoDup (handed_out k returns resolved).
Proof.
  assert (NoDup (getitem [] (SalesImport.queue_credit_notes objs) k)) as Hnd.
  { rewrite queue_credit_notes_getitem.
    apply foldl_first_NoDup, NoDup_nil_2. }
  split_and!; [done|apply queue_credit_notes_getitem| |].
  - intros q obj Hin. unfold SalesImport.queue_credit_note. simpl.
    by rewrite decide_True.
  - intros returns w w' resolved q' Hres.
    rewrite (resolve_returns_fifo _ _ _ _ _ _ k Hres) in Hnd.
    by apply NoDup_app in Hnd as [? _].
Qed.

Lemma credit_note_queued_once_witness :
  ∃ resolved,
    length resolved = 2%nat ∧
    NoDup (handed_out (5%Z, "I1")
             (SalesImport.salesreturn_objs Sample.acme Sample.january
                (db Sample.two_line_credit_note)) resolved).
Proof.
  destruct (credit_note_queued_once
              (SalesImport.salesreturn_inventory_objs Sample.acme
                 Sample.january (db Sample.two_line_credit_note))
              (5%Z, "I1")) as (_ & _ & _ & Hout).
  eexists. split; [|eapply (Hout _ Sample.two_line_credit_note)].
  2: { vm_compute. reflexivity. }
  reflexivity.
Defined.

(** A credit note of two lines is queued once and resolves one register
    row; the next register row gets the next credit note. *)
Example two_line_credit_note_paired :
  let objs := SalesImport.salesreturn_inventory_objs Sample.acme
                Sample.january (db Sample.two_line_credit_note) in
  let r := SalesImport.run_atomic Sample.acme Sample.january
             Sample.two_line_credit_note in
  gs_credit_note_no <$> objs = ["CN1"; "CN1"; "CN2"] ∧
  getitem [] (SalesImport.queue_credit_notes objs) (5%Z, "I1")
  = ["CN1"; "CN2"] ∧
  r.2 = Ok () ∧
  (λ s, (inum s, this (amt s))) <$> sales (db r.1)
  = [("CN1", (-10)%Q); ("CN2", (-20)%Q)].
Proof. by vm_compute. Qed.

(** ** Claim-service aggregation *)

Lemma filter_none {A} (P : A → Prop) `{∀ x, Decision (P x)} (l : list A) :
  Forall (λ x, ¬ P x) l → filter P l = [].
Proof.
  induction 1 as [|x l Hx _ IH]; [done|]. by rewrite filter_cons_False.
Qed.

Lemma filter_and_Forall {A} (P Q : A → Prop) `{∀ x, Decision (P x)}
    `{∀ x, Decision (Q x)} (l : list A) :
  Forall Q l → filter (λ x, Q x ∧ P x) l = filter P l.
Proof.
  induction 1 as [|x l Hx _ IH]; [done|].
  rewrite !filter_cons, IH.
  destruct (decide (P x)); [by rewrite decide_True|by rewrite decide_False by tauto].
Qed.

Lemma claimservice_objs_group company objs i :
  i ∈ gs_inum <$> objs →
  ∃ inv_obj,
    gs_inum inv_obj = i ∧
    filter (λ o, sr_inum o = i) (SalesImport.claimservice_objs company objs)
    = [SalesImport.claimservice_obj company
         (SalesImport.claimservice_sums objs) inv_obj].
Proof.
  intros (o & -> & Ho)%list_elem_of_fmap.
  unfold SalesImport.claimservice_objs.
  rewrite filter_fmap_comm. simpl. rewrite distinct_inum_filter.
  destruct (filter (λ x, gs_inum x = gs_inum o) objs) as [|o' rest] eqn:Hf.
  - assert (o ∈ filter (λ x, gs_inum x = gs_inum o) objs) as Hin
      by by apply list_elem_of_filter.
    rewrite Hf in Hin. by apply elem_of_nil in Hin.
  - exists o'. split; [|done].
    assert (o' ∈ filter (λ x, gs_inum x = gs_inum o) objs) as Hin
      by (rewrite Hf; left).
    by apply list_elem_of_filter in Hin as [? _].
Qed.

Lemma resolved_type company args d resolved :
  Forall2 (λ obj obj', ∃ i,
             obj' = set_sr_inum i (set_sr_roundoff (- sr_roundoff obj) obj))
          (SalesImport.salesreturn_objs company args d) resolved →
  Forall (λ r, sr_type r = "salesreturn") resolved.
Proof.
  intros Hshape.
  pose proof (Forall2_with_l _ _ _ _ (salesreturn_objs_type company args d)
                Hshape) as H.
  clear Hshape. induction H as [|x y l k [Hty [i ->]] _ IH]; constructor; done.
Qed.

(** C6. When [SalesImport.run_atomic] commits, every invoice number [i] among
    the claim-service rows of the inventory report has exactly one
    claim-service entry in the ledger.  It is made from one synthetic row
    whose amount is S + tax - TDS and whose tds is TDS, for S the sum of the
    taxable values of the rows of [i], tax the sum of 2 * txval * rate / 100
    over them and TDS = S * 2 / 100, with HUL as the party; the ledger entry
    carries the amount and the tds negated. *)
Theorem claimservice_aggregation company args w w' i :
  SalesImport.run_atomic company args w = (w', Ok ()) →
  let d := db w in
  let objs := SalesImport.claimservice_inventory_objs company args d in
  i ∈ gs_inum <$> objs →
  let group := filter (λ o, gs_inum o = i) objs in
  let S := Qcsum (gs_txval <$> group) in
  let tax := Qcsum (line_tax <$> group) in
  let TDS := S * dec 2 / dec 100 in
  ∃ emitted obj,
    sales (db w') =
      sales (delete_from (inums_qs company args SalesImport.types d) d)
      ++ emitted ∧
    filter (λ s, type s = "claimservice" ∧ inum s = i) emitted
    = [SalesImport.model_sales_obj company obj] ∧
    sr_amt obj = S + tax - TDS ∧
    sr_tds obj = TDS ∧
    sr_party_id obj = "HUL" ∧
    amt (SalesImport.model_sales_obj company obj) = - (S + tax - TDS) ∧
    tds (SalesImport.model_sales_obj company obj) = - TDS ∧
    party_id (SalesImport.model_sales_obj company obj) = "HUL".
Proof.
  intros Hrun d objs Hi group S tax TDS.
  destruct (SalesImport_run_atomic_Ok _ _ _ _ Hrun)
    as (resolved & q' & Hres & _ & Hsales & _).
  destruct (claimservice_objs_group company objs i Hi)
    as (inv_obj & Hinum & Hgroup).
  destruct (claimservice_sums_getitem objs i) as [HS Htax].
  eexists _, (SalesImport.claimservice_obj company
                (SalesImport.claimservice_sums objs) inv_obj).
  split; [exact Hsales|].
  assert (sr_amt (SalesImport.claimservice_obj company
                    (SalesImport.claimservice_sums objs) inv_obj)
          = S + tax - TDS) as Hamt.
  { simpl. by rewrite Hinum, HS, Htax. }
  assert (sr_tds (SalesImport.claimservice_obj company
                    (SalesImport.claimservice_sums objs) inv_obj) = TDS)
    as Htds.
  { simpl. by rewrite Hinum, HS. }
  split_and!; [|done|done|done|by simpl; rewrite Hinum, HS, Htax
               |by simpl; rewrite Hinum, HS|done].
  rewrite filter_fmap_comm. simpl. rewrite !filter_app.
  rewrite (filter_none _ (SalesImport.sales_objs company args d)),
          (filter_none _ resolved).
  - simpl. rewrite filter_and_Forall by apply claimservice_objs_type.
    unfold objs, d in Hgroup. by rewrite Hgroup.
  - specialize (Hres w). apply resolve_returns_shape, resolved_type in Hres.
    eapply Forall_impl; [exact Hres|]. intros r Hr [Hty _]. congruence.
  - eapply Forall_impl; [apply sales_objs_type|].
    intros r Hr [Hty _]. congruence.
Qed.

Lemma claimservice_aggregation_witness :
  ∃ obj,
    filter (λ s, type s = "claimservice" ∧ inum s = "I1")
           (sales (db (SalesImport.run_atomic Sample.acme Sample.january
                         Sample.two_claims).1))
    = [SalesImport.model_sales_obj Sample.acme obj] ∧
    sr_amt obj = dec 300 + dec 30 - dec 6 ∧
    sr_tds obj = dec 6 ∧
    sr_party_id obj = "HUL".
Proof.
  destruct (claimservice_aggregation Sample.acme Sample.january
              Sample.two_claims
              (SalesImport.run_atomic Sample.acme Sample.january
                 Sample.two_claims).1 "I1")
    as (emitted & obj & Hsales & Hone & Hamt & Htds & Hparty & _).
  { vm_compute. reflexivity. }
  { vm_compute. left. }
  exists obj. split_and!.
  - rewrite Hsales. exact Hone.
  - rewrite Hamt. apply Qc_is_canon. vm_compute. reflexivity.
  - rewrite Htds. apply Qc_is_canon. vm_compute. reflexivity.
  - exact Hparty.
Defined.

(** Two lines of invoice I1, taxable values 100 and 200 at 5%: one ledger
    entry of -(300 + 30 - 6) with a tds of -6. *)
Example two_claims_entry :
  let r := SalesImport.run_atomic Sample.acme Sample.january
             Sample.two_claims in
  r.2 = Ok () ∧
  (λ s, (type s, inum s, party_id s, this (amt s), this (tds s)))
  <$> sales (db r.1)
  = [("claimservice", "I1", "HUL", (-324)%Q, (-6)%Q)].
Proof. by vm_compute. Qed.

(** ** Taxable value of a market return *)




(** Amount 100 at 5%: 100 * 100 / 110 = 90.909 to 3 places. *)
Example market_return_at_5_percent :
  this <$> (i_txval <$> inventory
              (db (MarketReturnImport.run_atomic Sample.acme Sample.january
                     (Sample.one_market_return true 5)).1))
  = [(90909 # 1000)%Q].
Proof. by vm_compute. Qed.

(** * More of the file *)

(** ** [SalesImport.run_atomic], step by step *)

Lemma SalesImport_run_atomic_unfold company args w :
  SalesImport.run_atomic company args w =
  let d := db w in
  let d1 := delete_from (inums_qs company args SalesImport.types d) d in
  match SalesImport.resolve_returns
          (SalesImport.queue_credit_notes
             (SalesImport.salesreturn_inventory_objs company args d))
          (SalesImport.salesreturn_objs company args d) (with_db d1 w) with
  | (w2, Raise e) => ({| db := d; stdout := stdout w2 |}, Raise e)
  | (w2, Ok (resolved, _)) =>
      let claims :=
        SalesImport.claimservice_objs company
          (SalesImport.claimservice_inventory_objs company args d) in
      let entries :=
        SalesImport.model_sales_obj company
          <$> SalesImport.sales_objs company args d ++ resolved ++ claims in
      if unique_inum d
         && bool_decide (¬ NoDup (sales_ref <$> (sales d1 ++ entries)))
      then ({| db := d; stdout := stdout w2 |}, Raise IntegrityError)
      else
        ({| db :=
              {| unique_inum := unique_inum d;
                 salesregister_report := salesregister_report d;
                 ikeagstr1_report := ikeagstr1_report d;
                 dmgsht_report := dmgsht_report d;
                 stock := stock d;
                 sales := sales d1 ++ entries;
                 discounts :=
                   discounts d1 ++
                   ((filter (λ r, ¬ SalesImport.no_discount r)
                            (SalesImport.sales_objs company args d)
                       ++ resolved ++ claims)
                    ≫= SalesImport.model_discount_objs company);
                 inventory :=
                   inventory d1 ++
                   (SalesImport.model_inventory_obj company
                      <$> SalesImport.sales_inventory_objs company args d
                          ++ (SalesImport.inventory_return_obj
                                <$> SalesImport.salesreturn_inventory_objs
                                      company args d)
                          ++ SalesImport.claimservice_inventory_objs
                               company args d) |};
            stdout := stdout w2 |}, Ok ())
  end.
Proof.
  unfold SalesImport.run_atomic, transaction_atomic,
    SalesImport.run_atomic_body.
  rewrite bind_run, SalesImport_delete_before_insert_run, bind_run. simpl.
  rewrite bind_run.
  destruct (SalesImport.resolve_returns _ _ _) as [w2 [[resolved q']|e]] eqn:Hres;
    [|done].
  pose proof (resolve_returns_Ok _ _ _ _ _ Hres) as [-> _].
  unfold bulk_create_sales. rewrite !bind_run. simpl.
  destruct (unique_inum (db w) && _); done.
Qed.

(** ** Deleting *)

Lemma filter_ext_elem_of {A} (P Q : A → Prop) `{∀ x, Decision (P x)}
    `{∀ x, Decision (Q x)} (l : list A) :
  (∀ x, x ∈ l → (P x ↔ Q x)) → filter P l = filter Q l.
Proof.
  induction l as [|x l IH]; intros HPQ; [done|].
  rewrite !filter_cons, IH by (intros y Hy; apply HPQ; by right).
  destruct (decide (P x)) as [HP|HP].
  - by rewrite decide_True by (by apply HPQ; [left|]).
  - rewrite decide_False; [done|]. intros HQ. apply HP, HPQ; [left|done].
Qed.

(** X1. Deleting a queryset in batches of any positive size is deleting it
    in one statement. *)
Theorem batch_delete_one_shot queryset n w :
  (0 < n)%nat → batch_delete queryset n w = delete_sales queryset w.
Proof. intros Hn. by rewrite batch_delete_run, delete_sales_run. Qed.

Lemma batch_delete_one_shot_witness :
  batch_delete Cases.ledger_rows 3 Cases.with_ledger
  = delete_sales Cases.ledger_rows Cases.with_ledger.
Proof. apply batch_delete_one_shot. lia. Defined.

Lemma delete_before_insert_run cls company args w :
  delete_before_insert cls company args w =
  (with_db (delete_from (inums_qs company args (types_of cls) (db w)) (db w)) w,
   Ok ()).
Proof.
  destruct cls; [apply SalesImport_delete_before_insert_run|reflexivity].
Qed.

Lemma sales_delete_from_inums_qs company args types d :
  sales (delete_from (inums_qs company args types d) d)
  = filter (λ s, ¬ in_window company args types s) (sales d).
Proof.
  simpl. apply filter_ext_elem_of. intros s Hs. unfold inums_qs, in_window.
  rewrite list_elem_of_filter. tauto.
Qed.

(** X2. [delete_before_insert] never fails and prints nothing.  It removes
    from the ledger exactly the rows of the tenant that are dated inside the
    window and of the importer's types, keeping all other rows in their
    order; a discount or inventory row goes exactly when it points to a
    removed ledger row; the report tables and the stock master stay. *)
Theorem delete_before_insert_exact cls company args w :
  let r := delete_before_insert cls company args w in
  let gone s := s ∈ sales (db w) ∧ in_window company args (types_of cls) s in
  r.2 = Ok () ∧
  stdout r.1 = stdout w ∧
  sales (db r.1)
  = filter (λ s, ¬ in_window company args (types_of cls) s) (sales (db w)) ∧
  (∀ x, x ∈ discounts (db r.1) ↔
        x ∈ discounts (db w) ∧ ¬ ∃ s, gone s ∧ sales_ref s = discount_ref x) ∧
  (∀ x, x ∈ inventory (db r.1) ↔
        x ∈ inventory (db w) ∧ ¬ ∃ s, gone s ∧ sales_ref s = inventory_ref x) ∧
  salesregister_report (db r.1) = salesregister_report (db w) ∧
  ikeagstr1_report (db r.1) = ikeagstr1_report (db w) ∧
  dmgsht_report (db r.1) = dmgsht_report (db w) ∧
  stock (db r.1) = stock (db w).
Proof.
  intros r gone. unfold r. rewrite delete_before_insert_run. simpl.
  assert (∀ ref, ref ∈ sales_ref <$> inums_qs company args (types_of cls) (db w)
                 ↔ ∃ s, gone s ∧ sales_ref s = ref) as Href.
  { intros ref. rewrite list_elem_of_fmap. unfold inums_qs, gone, in_window.
    split.
    - intros (s & -> & [? ?]%list_elem_of_filter). by exists s.
    - intros (s & [? ?] & <-). exists s. split; [done|].
      by apply list_elem_of_filter. }
  split_and!; try done.
  - apply sales_delete_from_inums_qs.
  - intros x. rewrite list_elem_of_filter, Href. unfold discount_ref. tauto.
  - intros x. rewrite list_elem_of_filter, Href. unfold inventory_ref. tauto.
Qed.

(** ** Inventory emission *)

Lemma model_inventory_obj_line company obj :
  gs_type obj ≠ "salesreturn" →
  inventory_line company obj (SalesImport.model_inventory_obj company obj).
Proof.
  intros Hty. unfold inventory_line. simpl. by rewrite decide_False.
Qed.

Lemma model_inventory_obj_return_line company obj :
  gs_type obj = "salesreturn" →
  inventory_line company obj
    (SalesImport.model_inventory_obj company
       (SalesImport.inventory_return_obj obj)).
Proof.
  intros Hty. unfold inventory_line. simpl. by rewrite decide_True.
Qed.

(** X3. When [SalesImport.run_atomic] commits, the inventory table gains one
    line for every inventory-report row of the tenant and window that is a
    sale, a return or a claim-service line: sales first, then returns in
    ascending invoice amount, then claim-service lines.  A return goes
    under its credit-note number with the taxable value negated, whether or
    not a register row was matched to it; the other rows keep their invoice
    number and taxable value; stock, quantity and rate are copied. *)
Theorem inventory_lines_emitted company args w w' :
  SalesImport.run_atomic company args w = (w', Ok ()) →
  let d := db w in
  let objs :=
    SalesImport.sales_inventory_objs company args d
    ++ SalesImport.salesreturn_inventory_objs company args d
    ++ SalesImport.claimservice_inventory_objs company args d in
  ∃ lines,
    inventory (db w') =
      inventory (delete_from (inums_qs company args SalesImport.types d) d)
      ++ lines ∧
    Forall2 (inventory_line company) objs lines ∧
    ∀ o, o ∈ objs ↔
         o ∈ ikeagstr1_report d ∧ gs_company o = company ∧
         in_range args (gs_date o) = true ∧ gs_type o ∈ SalesImport.types.
Proof.
  intros Hrun d objs.
  destruct (SalesImport_run_atomic_Ok _ _ _ _ Hrun)
    as (resolved & q' & _ & _ & _ & _ & Hinv).
  eexists. split; [exact Hinv|]. split.
  - unfold objs. rewrite !fmap_app. repeat apply Forall2_app.
    + apply Forall2_fmap_r, Forall_Forall2_diag, Forall_forall.
      intros o [Hty _]%list_elem_of_filter.
      apply model_inventory_obj_line. by rewrite Hty.
    + rewrite <- list_fmap_compose.
      apply Forall2_fmap_r, Forall_Forall2_diag, Forall_forall.
      intros o Ho%elem_of_order_by. apply list_elem_of_filter in Ho as [Hty _].
      by apply model_inventory_obj_return_line.
    + apply Forall2_fmap_r, Forall_Forall2_diag, Forall_forall.
      intros o [Hty _]%list_elem_of_filter.
      apply model_inventory_obj_line. by rewrite Hty.
  - intros o. unfold objs. rewrite !elem_of_app.
    unfold SalesImport.salesreturn_inventory_objs. rewrite elem_of_order_by.
    unfold SalesImport.sales_inventory_objs,
      SalesImport.claimservice_inventory_objs, SalesImport.inventory_qs,
      SalesImport.types.
    rewrite !list_elem_of_filter, Is_true_true, !elem_of_cons, elem_of_nil.
    tauto.
Qed.

Lemma inventory_lines_emitted_witness :
  ∃ lines,
    inventory (db (SalesImport.run_atomic Sample.acme Sample.january
                     Sample.three_returns).1) = lines ∧
    Forall2 (inventory_line Sample.acme)
      (SalesImport.salesreturn_inventory_objs Sample.acme Sample.january
         (db Sample.three_returns)) lines.
Proof.
  destruct (inventory_lines_emitted Sample.acme Sample.january
              Sample.three_returns
              (SalesImport.run_atomic Sample.acme Sample.january
                 Sample.three_returns).1)
    as (lines & Hinv & Hall & _).
  { vm_compute. reflexivity. }
  exists lines. split; [exact Hinv|].
  rewrite app_nil_r in Hall. exact Hall.
Defined.

(** ** What a run leaves alone *)

Lemma MarketReturnImport_run_atomic_unfold company args w :
  MarketReturnImport.run_atomic company args w =
  let d := db w in
  match MarketReturnImport.market_return_loop company ([], [])
          (MarketReturnImport.market_returns d company) w with
  | (w2, Raise e) => ({| db := d; stdout := stdout w2 |}, Raise e)
  | (w2, Ok (sales_objects, inventory_objects)) =>
      if unique_inum d
         && bool_decide (¬ NoDup (sales_ref <$> (sales d ++ sales_objects.*2)))
      then ({| db := d; stdout := stdout w2 |}, Raise IntegrityError)
      else
        ({| db :=
              {| unique_inum := unique_inum d;
                 salesregister_report := salesregister_report d;
                 ikeagstr1_report := ikeagstr1_report d;
                 dmgsht_report := dmgsht_report d;
                 stock := stock d;
                 sales := sales d ++ sales_objects.*2;
                 discounts := discounts d;
                 inventory := inventory d ++ inventory_objects |};
            stdout := stdout w2 |}, Ok ())
  end.
Proof.
  unfold MarketReturnImport.run_atomic, transaction_atomic,
    MarketReturnImport.run_atomic_body.
  rewrite bind_run. simpl. rewrite bind_run.
  destruct (MarketReturnImport.market_return_loop _ _ _ w)
    as [w2 [[so io]|e]] eqn:Hloop; [|done].
  pose proof (market_return_loop_Ok _ _ _ _ _ _ Hloop) as [Hdb _].
  unfold bulk_create_sales. rewrite !bind_run. simpl. rewrite Hdb.
  destruct (unique_inum (db w) && _); done.
Qed.

(** X4. Whether it commits or fails, a date-ranged importer leaves the three
    report tables, the stock master and the schema of the store as they
    were. *)
Theorem run_atomic_keeps_sources cls company args w :
  let d' := db (run_atomic cls company args w).1 in
  salesregister_report d' = salesregister_report (db w) ∧
  ikeagstr1_report d' = ikeagstr1_report (db w) ∧
  dmgsht_report d' = dmgsht_report (db w) ∧
  stock d' = stock (db w) ∧
  unique_inum d' = unique_inum (db w).
Proof.
  destruct cls; simpl.
  - rewrite SalesImport_run_atomic_unfold. simpl.
    destruct (SalesImport.resolve_returns _ _ _) as [w2 [[resolved q']|e]];
      [|done].
    destruct (unique_inum (db w) && _); done.
  - rewrite MarketReturnImport_run_atomic_unfold. simpl.
    destruct (MarketReturnImport.market_return_loop _ _ _ _)
      as [w2 [[so io]|e]]; [|done].
    destruct (unique_inum (db w) && _); done.
Qed.

(** ** The exceptions of a run *)

(** X5. [SalesImport.run_atomic] fails with [IndexError] or, on a ledger
    with a unique key, [IntegrityError]; [MarketReturnImport.run_atomic] with
    [ZeroDivisionError] or, on a ledger with a unique key,
    [IntegrityError].  No other exception leaves a date-ranged importer. *)
Theorem run_atomic_exceptions cls company args w w' e :
  run_atomic cls company args w = (w', Raise e) →
  (e = IntegrityError ∧ unique_inum (db w) = true) ∨
  match cls with
  | SalesImport_class => e = IndexError
  | MarketReturnImport_class => e = ZeroDivisionError
  end.
Proof.
  destruct cls; simpl.
  - rewrite SalesImport_run_atomic_unfold. simpl.
    destruct (SalesImport.resolve_returns _ _ _)
      as [w2 [[resolved q']|e']] eqn:Hres.
    + destruct (unique_inum (db w)) eqn:Hu; simpl; [|done].
      case_bool_decide; [|done]. intros [= <- <-]. by left.
    + intros [= <- <-]. right. by apply resolve_returns_Raise in Hres as [? _].
  - rewrite MarketReturnImport_run_atomic_unfold. simpl.
    destruct (MarketReturnImport.market_return_loop _ _ _ _)
      as [w2 [[so io]|e']] eqn:Hloop.
    + destruct (unique_inum (db w)) eqn:Hu; simpl; [|done].
      case_bool_decide; [|done]. intros [= <- <-]. by left.
    + intros [= <- <-]. right.
      by apply market_return_loop_Raise in Hloop as [? _].
Qed.

Lemma run_atomic_exceptions_witness :
  (IntegrityError = IntegrityError ∧
   unique_inum (db (MarketReturnImport.run_atomic Sample.acme Sample.january
                      (Sample.one_market_return true 5)).1) = true) ∨
  IntegrityError = ZeroDivisionError.
Proof.
  apply (run_atomic_exceptions MarketReturnImport_class Sample.acme
           Sample.january
           (MarketReturnImport.run_atomic Sample.acme Sample.january
              (Sample.one_market_return true 5)).1
           (MarketReturnImport.run_atomic Sample.acme Sample.january
              (Sample.one_market_return true 5)).1).
  vm_compute. reflexivity.
Defined.

(** ** When the return loop succeeds *)

Lemma resolve_returns_enough q objs w :
  enough_credit_notes q objs →
  ∃ r, SalesImport.resolve_returns q objs w = (w, Ok r).
Proof.
  revert q. induction objs as [|obj objs IH]; intros q Hq; simpl.
  - by eexists.
  - rewrite bind_run, resolve_return_run.
    pose proof (Hq (register_key obj)) as Hk.
    rewrite filter_cons_True in Hk by done. simpl in Hk.
    destruct (getitem [] q (register_key obj)) as [|i rest] eqn:Hget;
      [simpl in Hk; lia|].
    destruct (IH (<[register_key obj := rest]> q)) as [[resolved q'] Hr].
    { intros k. unfold getitem.
      destruct (decide (register_key obj = k)) as [<-|Hne].
      - rewrite lookup_insert_eq. simpl. simpl in Hk. lia.
      - rewrite lookup_insert_ne by done. specialize (Hq k).
        rewrite filter_cons_False in Hq by done. exact Hq. }
    rewrite bind_run, Hr. by eexists.
Qed.

Lemma resolve_returns_Ok_enough q objs w w' r :
  SalesImport.resolve_returns q objs w = (w', Ok r) →
  enough_credit_notes q objs.
Proof.
  revert q r w'. induction objs as [|obj objs IH]; intros q r w'; simpl.
  - intros _ k. simpl. lia.
  - rewrite bind_run, resolve_return_run.
    destruct (getitem [] q (register_key obj)) as [|i rest] eqn:Hget; [done|].
    rewrite bind_run.
    destruct (SalesImport.resolve_returns _ objs w)
      as [w1 [[resolved q']|e]] eqn:Hr; [|done].
    intros _. apply IH in Hr. intros k. specialize (Hr k).
    rewrite filter_cons. unfold getitem in *.
    destruct (decide (register_key obj = k)) as [<-|Hne].
    + rewrite lookup_insert_eq in Hr. rewrite Hget. simpl in *. lia.
    + by rewrite lookup_insert_ne in Hr.
Qed.

(** X6. [SalesImport.run_atomic] raises [IndexError] exactly when some
    (date, invoice number) has more register returns in the window than
    credit notes queued for it.  On a ledger without a unique key it commits
    in every other case. *)
Theorem index_error_iff_short_of_credit_notes company args w :
  let d := db w in
  let q := SalesImport.queue_credit_notes
             (SalesImport.salesreturn_inventory_objs company args d) in
  let objs := SalesImport.salesreturn_objs company args d in
  ((∃ w', SalesImport.run_atomic company args w = (w', Raise IndexError))
   ↔ ¬ enough_credit_notes q objs) ∧
  (unique_inum d = false → enough_credit_notes q objs →
   ∃ w', SalesImport.run_atomic company args w = (w', Ok ())).
Proof.
  intros d q objs. rewrite SalesImport_run_atomic_unfold. simpl.
  fold d q objs.
  destruct (SalesImport.resolve_returns q objs _)
    as [w2 [[resolved q']|e]] eqn:Hres.
  - pose proof (resolve_returns_Ok_enough _ _ _ _ _ Hres) as Henough.
    split.
    + split; [|done]. intros [w' Hw'].
      destruct (unique_inum d && _); done.
    + intros -> _. simpl. by eexists.
  - split.
    + split.
      * intros _ Henough.
        destruct (resolve_returns_enough q objs
                    (with_db (delete_from
                                (inums_qs company args SalesImport.types d) d)
                             w) Henough) as [r Hr].
        congruence.
      * intros _. apply resolve_returns_Raise in Hres as [-> _]. by eexists.
    + intros _ Henough.
      destruct (resolve_returns_enough q objs
                  (with_db (delete_from
                              (inums_qs company args SalesImport.types d) d)
                           w) Henough) as [r Hr].
      congruence.
Qed.

Lemma index_error_iff_short_of_credit_notes_witness :
  ∃ w', SalesImport.run_atomic Sample.acme Sample.january
          Cases.returns_without_key = (w', Ok ()).
Proof.
  destruct (index_error_iff_short_of_credit_notes Sample.acme Sample.january
              Cases.returns_without_key) as [_ Hcommit].
  apply Hcommit; [reflexivity|].
  eapply (resolve_returns_Ok_enough _ _ Cases.returns_without_key).
  vm_compute. reflexivity.
Defined.

(** ** Replacing the window *)

Lemma elem_of_distinct_inum objs o :
  o ∈ SalesImport.distinct_inum objs → o ∈ objs.
Proof.
  induction objs as [|obj objs IH]; simpl; [done|].
  rewrite !elem_of_cons, list_elem_of_filter. tauto.
Qed.

Lemma emitted_in_window company args d resolved :
  Forall2 (λ obj obj', ∃ i,
             obj' = set_sr_inum i (set_sr_roundoff (- sr_roundoff obj) obj))
          (SalesImport.salesreturn_objs company args d) resolved →
  Forall (in_window company args SalesImport.types)
    (SalesImport.model_sales_obj company
       <$> SalesImport.sales_objs company args d ++ resolved
           ++ SalesImport.claimservice_objs company
                (SalesImport.claimservice_inventory_objs company args d)).
Proof.
  intros Hshape. rewrite Forall_fmap, !Forall_app. split_and!.
  - apply Forall_forall.
    intros r [Hty [[_ Hdate] _]%list_elem_of_filter]%list_elem_of_filter.
    split_and!; [done..|]. simpl. rewrite Hty. set_solver.
  - assert (Forall (λ r, sr_type r = "salesreturn" ∧ in_range args (sr_date r))
                   (SalesImport.salesreturn_objs company args d)) as Hall.
    { apply Forall_forall. intros r Hr%elem_of_order_by.
      by apply list_elem_of_filter in Hr
        as [Hty [[_ Hdate] _]%list_elem_of_filter]. }
    pose proof (Forall2_with_l _ _ _ _ Hall Hshape) as H. clear Hall Hshape.
    induction H as [|x y l k [[Hty Hdate] [i ->]] _ IH]; constructor; [|done].
    split_and!; [done..|]. simpl. rewrite Hty. set_solver.
  - unfold SalesImport.claimservice_objs. apply Forall_fmap, Forall_forall.
    intros o Ho%elem_of_distinct_inum.
    apply list_elem_of_filter in Ho as [_ [[_ Hdate] _]%list_elem_of_filter].
    split_and!; [done..|]. simpl. set_solver.
Qed.

Lemma filter_Forall {A} (P : A → Prop) `{∀ x, Decision (P x)} (l : list A) :
  Forall P l → filter P l = l.
Proof.
  induction 1 as [|x l Hx _ IH]; [done|].
  rewrite filter_cons_True by done. by f_equal.
Qed.

Lemma filter_not_filter {A} (P : A → Prop) `{∀ x, Decision (P x)}
    (l : list A) :
  Forall (λ x, ¬ P x) (filter (λ x, ¬ P x) l).
Proof. apply Forall_forall. by intros x [? _]%list_elem_of_filter. Qed.

Lemma filter_outside_app {A} (P : A → Prop) `{∀ x, Decision (P x)}
    (l k : list A) :
  Forall P k →
  filter (λ x, ¬ P x) (filter (λ x, ¬ P x) l ++ k) = filter (λ x, ¬ P x) l ∧
  filter P (filter (λ x, ¬ P x) l ++ k) = k.
Proof.
  intros Hk.
  assert (Forall (λ x, ¬ ¬ P x) k) as Hnn
    by (eapply Forall_impl; [exact Hk|]; tauto).
  pose proof (filter_not_filter P l) as Hout.
  rewrite !filter_app. split.
  - rewrite (filter_Forall (λ x, ¬ P x) _ Hout).
    by rewrite (filter_none (λ x, ¬ P x) _ Hnn), app_nil_r.
  - by rewrite (filter_none P _ Hout), (filter_Forall P _ Hk).
Qed.

(** X7. When [SalesImport.run_atomic] commits, the ledger rows outside its
    scope (another tenant, a date outside the window, a type other than
    sales, salesreturn and claimservice) are the ones of before, in order,
    and the rows inside its scope are exactly the entries of this run: the
    window is replaced, not merged. *)
Theorem window_replaced company args w w' :
  SalesImport.run_atomic company args w = (w', Ok ()) →
  let inside := in_window company args SalesImport.types in
  ∃ entries,
    sales (db w') = filter (λ s, ¬ inside s) (sales (db w)) ++ entries ∧
    Forall inside entries ∧
    filter inside (sales (db w')) = entries ∧
    filter (λ s, ¬ inside s) (sales (db w'))
    = filter (λ s, ¬ inside s) (sales (db w)).
Proof.
  intros Hrun inside.
  destruct (SalesImport_run_atomic_Ok _ _ _ _ Hrun)
    as (resolved & q' & Hres & _ & Hsales & _).
  pose proof (emitted_in_window company args (db w) resolved
                (resolve_returns_shape _ _ _ _ _ _ (Hres w))) as Hin.
  rewrite sales_delete_from_inums_qs in Hsales. fold inside in Hsales, Hin.
  eexists. split; [exact Hsales|]. split; [exact Hin|].
  rewrite Hsales.
  destruct (filter_outside_app inside (sales (db w)) _ Hin) as [H1 H2].
  by rewrite H1, H2.
Qed.

Lemma window_replaced_witness :
  ∃ entries,
    sales (db (SalesImport.run_atomic Sample.acme Sample.january
                 Cases.with_ledger).1)
    = filter (λ s, ¬ in_window Sample.acme Sample.january SalesImport.types s)
             Cases.ledger_rows ++ entries ∧
    Forall (in_window Sample.acme Sample.january SalesImport.types) entries.
Proof.
  destruct (window_replaced Sample.acme Sample.january Cases.with_ledger
              (SalesImport.run_atomic Sample.acme Sample.january
                 Cases.with_ledger).1)
    as (entries & Hsales & Hin & _).
  { vm_compute. reflexivity. }
  exists entries. split; [exact Hsales|exact Hin].
Defined.

(** The damage row and the row of the other tenant stay, the two rows of
    the window go, the sale of the register comes in. *)
Example with_ledger_replaced :
  (λ s, (company_id s, type s, inum s))
  <$> sales (db (SalesImport.run_atomic Sample.acme Sample.january
                   Cases.with_ledger).1)
  = [("acme", "damage", "A3"); ("other", "sales", "A1");
     ("acme", "sales", "S9")].
Proof. by vm_compute. Qed.

(** ** Running [SalesImport] again *)

Lemma querysets_frame company args d d' :
  salesregister_report d' = salesregister_report d →
  ikeagstr1_report d' = ikeagstr1_report d →
  SalesImport.sales_objs company args d' = SalesImport.sales_objs company args d ∧
  SalesImport.salesreturn_objs company args d'
  = SalesImport.salesreturn_objs company args d ∧
  SalesImport.salesreturn_inventory_objs company args d'
  = SalesImport.salesreturn_inventory_objs company args d ∧
  SalesImport.claimservice_inventory_objs company args d'
  = SalesImport.claimservice_inventory_objs company args d ∧
  SalesImport.sales_inventory_objs company args d'
  = SalesImport.sales_inventory_objs company args d.
Proof.
  intros Hsr Hgs.
  unfold SalesImport.sales_objs, SalesImport.salesreturn_objs,
    SalesImport.salesreturn_inventory_objs,
    SalesImport.claimservice_inventory_objs, SalesImport.sales_inventory_objs,
    SalesImport.sales_qs, SalesImport.inventory_qs.
  by rewrite Hsr, Hgs.
Qed.

Lemma SalesImport_run_atomic_commits company args w resolved q' :
  let d := db w in
  let d1 := delete_from (inums_qs company args SalesImport.types d) d in
  let entries :=
    SalesImport.model_sales_obj company
      <$> SalesImport.sales_objs company args d ++ resolved
          ++ SalesImport.claimservice_objs company
               (SalesImport.claimservice_inventory_objs company args d) in
  (∀ w0, SalesImport.resolve_returns
           (SalesImport.queue_credit_notes
              (SalesImport.salesreturn_inventory_objs company args d))
           (SalesImport.salesreturn_objs company args d) w0
         = (w0, Ok (resolved, q'))) →
  unique_inum d && bool_decide (¬ NoDup (sales_ref <$> (sales d1 ++ entries)))
  = false →
  ∃ w', SalesImport.run_atomic company args w = (w', Ok ()) ∧
        sales (db w') = sales d1 ++ entries ∧ stdout w' = stdout w.
Proof.
  intros d d1 entries Hres Hu.
  rewrite SalesImport_run_atomic_unfold. cbv zeta. rewrite Hres.
  unfold entries, d1, d in Hu. rewrite Hu. by eexists.
Qed.

(** X8. When [SalesImport.run_atomic] commits, running it again over the
    same window commits too, prints nothing and leaves the ledger table of
    the first run: same rows, same order. *)
Theorem rerun_leaves_ledger company args w w1 :
  SalesImport.run_atomic company args w = (w1, Ok ()) →
  ∃ w2, SalesImport.run_atomic company args w1 = (w2, Ok ()) ∧
        sales (db w2) = sales (db w1) ∧ stdout w2 = stdout w1.
Proof.
  intros Hrun.
  destruct (SalesImport_run_atomic_Ok _ _ _ _ Hrun)
    as (resolved & q' & Hres & _ & Hsales & _).
  pose proof (emitted_in_window company args (db w) resolved
                (resolve_returns_shape _ _ _ _ _ _ (Hres w))) as Hin.
  rewrite sales_delete_from_inums_qs in Hsales.
  rewrite SalesImport_run_atomic_unfold in Hrun. cbv zeta in Hrun.
  rewrite Hres in Hrun.
  destruct (unique_inum (db w) && _) eqn:Hu; [done|].
  rewrite sales_delete_from_inums_qs in Hu.
  assert (salesregister_report (db w1) = salesregister_report (db w) ∧
          ikeagstr1_report (db w1) = ikeagstr1_report (db w) ∧
          unique_inum (db w1) = unique_inum (db w)) as (Hsr & Hgs & Huq)
    by (by injection Hrun as <-).
  destruct (querysets_frame company args _ _ Hsr Hgs)
    as (Hq1 & Hq2 & Hq3 & Hq4 & _).
  destruct (SalesImport_run_atomic_commits company args w1 resolved q')
    as (w2 & Hrun2 & Hsales2 & Hout2).
  - intros w0. rewrite Hq2, Hq3. apply Hres.
  - rewrite sales_delete_from_inums_qs, Hq1, Hq4, Huq, Hsales.
    by rewrite (proj1 (filter_outside_app _ (sales (db w)) _ Hin)).
  - exists w2. split; [done|]. split; [|done].
    rewrite Hsales2, sales_delete_from_inums_qs, Hq1, Hq4, Hsales.
    by rewrite (proj1 (filter_outside_app _ (sales (db w)) _ Hin)).
Qed.

Lemma rerun_leaves_ledger_witness :
  ∃ w2,
    SalesImport.run_atomic Sample.acme Sample.january
      (SalesImport.run_atomic Sample.acme Sample.january
         Cases.with_ledger).1 = (w2, Ok ()) ∧
    sales (db w2)
    = sales (db (SalesImport.run_atomic Sample.acme Sample.january
                   Cases.with_ledger).1).
Proof.
  destruct (rerun_leaves_ledger Sample.acme Sample.january Cases.with_ledger
              (SalesImport.run_atomic Sample.acme Sample.january
                 Cases.with_ledger).1)
    as (w2 & Hrun & Hsales & _).
  { vm_compute. reflexivity. }
  exists w2. split; [exact Hrun|exact Hsales].
Defined.

(** ** Discount items and their ledger entries *)

(** X9. When [SalesImport.run_atomic] commits, every discount line item of
    the run points to a ledger entry written by the same run. *)
Theorem discount_items_have_entries company args w w' :
  SalesImport.run_atomic company args w = (w', Ok ()) →
  let d := db w in
  let d1 := delete_from (inums_qs company args SalesImport.types d) d in
  ∃ entries items,
    sales (db w') = sales d1 ++ entries ∧
    discounts (db w') = discounts d1 ++ items ∧
    ∀ x, x ∈ items → discount_ref x ∈ sales_ref <$> entries.
Proof.
  intros Hrun d d1.
  destruct (SalesImport_run_atomic_Ok _ _ _ _ Hrun)
    as (resolved & q' & _ & _ & Hsales & Hdisc & _).
  eexists _, _. split; [exact Hsales|]. split; [exact Hdisc|].
  intros x (qs & Hx & Hqs)%list_elem_of_bind.
  apply list_elem_of_fmap. exists (SalesImport.model_sales_obj company qs).
  split.
  - unfold SalesImport.model_discount_objs in Hx.
    apply list_elem_of_fmap in Hx as ([name value] & -> & _). reflexivity.
  - apply list_elem_of_fmap_2.
    rewrite !elem_of_app in Hqs |- *. rewrite list_elem_of_filter in Hqs.
    tauto.
Qed.

Lemma discount_items_have_entries_witness :
  ∃ entries items,
    sales (db (SalesImport.run_atomic Sample.acme Sample.january
                 Sample.discounted).1) = entries ∧
    discounts (db (SalesImport.run_atomic Sample.acme Sample.january
                     Sample.discounted).1) = items ∧
    ∀ x, x ∈ items → discount_ref x ∈ sales_ref <$> entries.
Proof.
  destruct (discount_items_have_entries Sample.acme Sample.january
              Sample.discounted
              (SalesImport.run_atomic Sample.acme Sample.january
                 Sample.discounted).1)
    as (entries & items & Hsales & Hdisc & Href).
  { vm_compute. reflexivity. }
  exists entries, items. split; [exact Hsales|]. split; [exact Hdisc|exact Href].
Defined.

(** ** Market returns: diagnostics and failures *)

Lemma market_return_loop_stdout company acc mrs w w' acc' :
  MarketReturnImport.market_return_loop company acc mrs w = (w', Ok acc') →
  stdout w' = stdout w
              ++ (rate_not_found
                    <$> filter (λ mr, MarketReturnImport.mr_rt mr = None) mrs).
Proof.
  revert acc w. induction mrs as [|mr mrs IH]; intros [so io] w; simpl.
  - intros [= <- <-]. by rewrite app_nil_r.
  - rewrite bind_run. unfold MarketReturnImport.market_return.
    rewrite filter_cons.
    destruct (MarketReturnImport.mr_rt mr) as [rt|] eqn:Hrt.
    + rewrite bind_run, txval_of_run.
      rewrite (decide_False (P := Some rt = None)) by done.
      destruct (decide (rt = dec 0)) as [Hz|Hz];
        [|destruct (decide (dec 100 + dec 2 * rt = dec 0)); [done|]];
        simpl; apply IH.
    + rewrite (decide_True (P := None = None)) by done.
      rewrite bind_run. simpl.
      intros Hloop%IH. rewrite Hloop. simpl.
      unfold rate_not_found at 2. by rewrite <- app_assoc.
Qed.

Lemma stock_rt_subquery_None d company stock_id :
  MarketReturnImport.stock_rt_subquery d company stock_id = None ↔
  ¬ ∃ s, s ∈ stock d ∧ st_company s = company ∧ st_name s = stock_id.
Proof.
  unfold MarketReturnImport.stock_rt_subquery.
  destruct (filter _ (stock d)) as [|s l] eqn:Hf; simpl.
  - split; [|done]. intros _ (s & Hs & Hc & Hn).
    assert (s ∈ filter (λ s, st_company s = company ∧ st_name s = stock_id)
                       (stock d)) as Hin by by apply list_elem_of_filter.
    rewrite Hf in Hin. by apply elem_of_nil in Hin.
  - split; [done|]. intros Hno. exfalso. apply Hno. exists s.
    assert (s ∈ filter (λ s, st_company s = company ∧ st_name s = stock_id)
                       (stock d)) as Hin by (rewrite Hf; left).
    apply list_elem_of_filter in Hin. tauto.
Qed.

(** X10. When [MarketReturnImport.run_atomic] commits it has printed one
    "rate not found" diagnostic for every market return of the tenant whose
    rate it did not find, in report order, and nothing else; the rate of a
    row is not found exactly when the stock master has no row of the tenant
    named by the row's stock id. *)
Theorem market_return_diagnostics company args w w' :
  MarketReturnImport.run_atomic company args w = (w', Ok ()) →
  let mrs := MarketReturnImport.market_returns (db w) company in
  stdout w' = stdout w
              ++ (rate_not_found
                    <$> filter (λ mr, MarketReturnImport.mr_rt mr = None) mrs) ∧
  ∀ mr, mr ∈ mrs →
    (MarketReturnImport.mr_rt mr = None ↔
     ¬ ∃ s, s ∈ stock (db w) ∧ st_company s = company ∧
            st_name s = ds_stock_id (MarketReturnImport.mr_row mr)).
Proof.
  intros Hrun mrs. split.
  - rewrite MarketReturnImport_run_atomic_unfold in Hrun. cbv zeta in Hrun.
    destruct (MarketReturnImport.market_return_loop _ _ _ w)
      as [w2 [[so io]|e]] eqn:Hloop; [|done].
    apply market_return_loop_stdout in Hloop.
    destruct (unique_inum (db w) && _); [done|].
    injection Hrun as <-. exact Hloop.
  - intros mr (r & -> & _)%list_elem_of_fmap. simpl.
    apply stock_rt_subquery_None.
Qed.

Lemma market_return_diagnostics_witness :
  stdout (MarketReturnImport.run_atomic Sample.acme Sample.january
            Cases.market_returns).1 = [StockRateNotFound "S9"].
Proof.
  destruct (market_return_diagnostics Sample.acme Sample.january
              Cases.market_returns
              (MarketReturnImport.run_atomic Sample.acme Sample.january
                 Cases.market_returns).1) as [Hout _].
  { vm_compute. reflexivity. }
  exact Hout.
Defined.

Lemma rate_minus_50 rt :
  rt ≠ dec 0 ∧ dec 100 + dec 2 * rt = dec 0 ↔ rt = dec (-50).
Proof.
  split.
  - intros [_ H]. apply Qc_is_canon.
    assert (this (dec 100 + dec 2 * rt) == this (dec 0))%Q as HQ
      by by rewrite H.
    unfold dec in *. simpl in *. rewrite !Qred_correct in *.
    change (inject_Z 100) with 100%Q in HQ.
    change (inject_Z 2) with 2%Q in HQ.
    change (inject_Z 0) with 0%Q in HQ.
    change (inject_Z (-50)) with (-50)%Q. lra.
  - intros ->. split.
    + intros H. apply (f_equal this) in H. vm_compute in H. discriminate.
    + apply Qc_is_canon. reflexivity.
Qed.

Lemma market_return_loop_fails_iff company acc mrs w :
  (∃ w', MarketReturnImport.market_return_loop company acc mrs w
         = (w', Raise ZeroDivisionError))
  ↔ ∃ mr, mr ∈ mrs ∧ MarketReturnImport.mr_rt mr = Some (dec (-50)).
Proof.
  revert acc w. induction mrs as [|mr mrs IH]; intros [so io] w; simpl.
  - split; [by intros [? ?]|]. intros (mr & Hmr & _). by apply elem_of_nil in Hmr.
  - rewrite bind_run. unfold MarketReturnImport.market_return.
    destruct (MarketReturnImport.mr_rt mr) as [rt|] eqn:Hrt.
    + rewrite bind_run, txval_of_run.
      destruct (decide (rt = dec 0)) as [Hz|Hz];
        [|destruct (decide (dec 100 + dec 2 * rt = dec 0)) as [H50|H50]];
        simpl.
      * rewrite IH. split.
        -- intros (mr' & ? & ?). exists mr'. split; [by right|done].
        -- intros (mr' & [->|?]%elem_of_cons & Hmr'); [|by exists mr'].
           rewrite Hrt in Hmr'. injection Hmr' as ->.
           by apply rate_minus_50 in Hz.
      * split; [|by eexists]. intros _. exists mr. split; [left|].
        rewrite Hrt. f_equal. by apply rate_minus_50.
      * rewrite IH. split.
        -- intros (mr' & ? & ?). exists mr'. split; [by right|done].
        -- intros (mr' & [->|?]%elem_of_cons & Hmr'); [|by exists mr'].
           rewrite Hrt in Hmr'. injection Hmr' as ->.
           exfalso. apply H50. by apply (rate_minus_50 (dec (-50))).
    + rewrite bind_run. simpl. rewrite IH. split.
      * intros (mr' & ? & ?). exists mr'. split; [by right|done].
      * intros (mr' & [->|?]%elem_of_cons & Hmr'); [congruence|by exists mr'].
Qed.

(** X11. [MarketReturnImport.run_atomic] raises [ZeroDivisionError] exactly
    when some market return of the tenant has a looked-up rate of -50, the
    rate at which 100 + 2 * rate is 0. *)
Theorem zero_division_iff_rate_minus_50 company args w :
  (∃ w', MarketReturnImport.run_atomic company args w
         = (w', Raise ZeroDivisionError))
  ↔ ∃ mr, mr ∈ MarketReturnImport.market_returns (db w) company ∧
          MarketReturnImport.mr_rt mr = Some (dec (-50)).
Proof.
  rewrite <- (market_return_loop_fails_iff company ([], []) _ w).
  rewrite MarketReturnImport_run_atomic_unfold. cbv zeta.
  destruct (MarketReturnImport.market_return_loop _ _ _ w)
    as [w2 [[so io]|e]] eqn:Hloop.
  - split; [|by intros [? ?]]. intros [w' Hw'].
    destruct (unique_inum (db w) && _); done.
  - split; intros [w' [= <- <-]]; by eexists.
Qed.

Example rate_minus_50_raises :
  (MarketReturnImport.run_atomic Sample.acme Sample.january
     (Sample.one_market_return true (-50))).2 = Raise ZeroDivisionError.
Proof. by vm_compute. Qed.

(** ** Market returns: one ledger entry for each invoice number *)

Lemma Qcsum_snoc xs x : Qcsum (xs ++ [x]) = Qcsum xs + x.
Proof.
  induction xs as [|y xs IH].
  - unfold Qcsum. simpl. change (dec 0) with 0. ring.
  - rewrite <- app_comm_cons, !Qcsum_cons, IH. ring.
Qed.

Lemma first_occurrences_snoc l x :
  first_occurrences (l ++ [x]) =
  if decide (x ∈ first_occurrences l) then first_occurrences l
  else first_occurrences l ++ [x].
Proof. unfold first_occurrences. by rewrite foldl_app. Qed.

Lemma elem_of_first_occurrences l x : x ∈ first_occurrences l ↔ x ∈ l.
Proof.
  unfold first_occurrences. rewrite foldl_first_elem_of, elem_of_nil. tauto.
Qed.

Lemma add_amt_keys k v (so : list (string * Sales)) :
  (MarketReturnImport.add_amt k v so).*1 = so.*1.
Proof.
  unfold MarketReturnImport.add_amt. rewrite <- list_fmap_compose.
  apply list_fmap_ext. intros i [k' s] _. simpl. by case_decide.
Qed.

Lemma market_return_Ok company so io mr w w' so' io' :
  MarketReturnImport.market_return company (so, io) mr w = (w', Ok (so', io')) →
  so' = if decide (resolvable mr) then after_market_return company so mr
        else so.
Proof.
  unfold MarketReturnImport.market_return, resolvable.
  destruct (MarketReturnImport.mr_rt mr) as [rt|] eqn:Hrt.
  - rewrite bind_run, txval_of_run.
    rewrite (decide_True (P := is_Some (Some rt))) by by eexists.
    destruct (decide (rt = dec 0));
      [|destruct (decide (dec 100 + dec 2 * rt = dec 0)); [done|]];
      by intros [= <- <- <-].
  - rewrite (decide_False (P := is_Some None)) by by intros [? [=]].
    rewrite bind_run. simpl. by intros [= <- <- <-].
Qed.


Lemma ledger_invariant_step company so done mr :
  ledger_invariant company so done →
  ledger_invariant company (after_market_return company so mr) (done ++ [mr]).
Proof.
  intros [Hkeys Hall]. unfold after_market_return.
  assert (∀ kv : string * Sales,
            market_return_entry company
              (filter (λ mr, mr_inum mr = kv.1) done) kv.2 →
            market_return_entry company
              (filter (λ mr', mr_inum mr' = kv.1) (done ++ [mr]))
              (if decide (kv.1 = mr_inum mr)
               then (kv.1, set_amt (amt kv.2 + mr_amt mr) kv.2) else kv).2)
    as Hold.
  { intros [k s] (mr0 & rest & Hg & Hc & Ht & Hi & Hd & Hp & Hx & Ha).
    simpl in *. rewrite filter_app, filter_cons, filter_nil.
    destruct (decide (k = mr_inum mr)) as [->|Hne]; simpl.
    - rewrite decide_True by done. rewrite Hg. simpl.
      exists mr0, (rest ++ [mr]). split_and!; try done.
      transitivity (amt s + mr_amt mr); [reflexivity|].
      rewrite Ha, Hg, app_comm_cons, fmap_app. symmetry.
      apply (Qcsum_snoc (mr_amt <$> mr0 :: rest) (mr_amt mr)).
    - rewrite decide_False by done. rewrite app_nil_r.
      by exists mr0, rest. }
  split.
  - rewrite add_amt_keys, (fmap_app mr_inum).
    change (mr_inum <$> [mr]) with [mr_inum mr].
    rewrite first_occurrences_snoc, <- Hkeys.
    destruct (decide (mr_inum mr ∈ so.*1)); [done|].
    by rewrite fmap_app.
  - unfold MarketReturnImport.add_amt. apply Forall_fmap.
    destruct (decide (mr_inum mr ∈ so.*1)) as [Hin|Hnin].
    + eapply Forall_impl; [exact Hall|]. intros kv Hkv. simpl.
      specialize (Hold kv Hkv). by destruct (decide (kv.1 = mr_inum mr)).
    + apply Forall_app. split.
      * eapply Forall_impl; [exact Hall|]. intros kv Hkv. simpl.
        specialize (Hold kv Hkv). by destruct (decide (kv.1 = mr_inum mr)).
      * apply Forall_singleton. simpl. rewrite decide_True by done. simpl.
        rewrite filter_app, filter_cons, filter_nil.
        rewrite decide_True by done.
        rewrite filter_none.
        -- exists mr, []. split_and!; try done.
           transitivity (dec 0 + mr_amt mr); [reflexivity|].
           unfold Qcsum. simpl. change (dec 0) with 0. ring.
        -- apply Forall_forall. intros mr' Hmr' Heq. apply Hnin.
           rewrite Hkeys, elem_of_first_occurrences, <- Heq.
           by apply list_elem_of_fmap_2.
Qed.

Lemma market_return_loop_invariant company so io mrs w w' so' io' done :
  MarketReturnImport.market_return_loop company (so, io) mrs w
  = (w', Ok (so', io')) →
  ledger_invariant company so done →
  ledger_invariant company so' (done ++ filter resolvable mrs).
Proof.
  revert so io w done. induction mrs as [|mr mrs IH]; intros so io w done.
  - simpl. intros [= <- <- <-]. by rewrite app_nil_r.
  - change (MarketReturnImport.market_return_loop company (so, io) (mr :: mrs))
      with (MarketReturnImport.market_return company (so, io) mr
            ≫= λ acc', MarketReturnImport.market_return_loop company acc' mrs).
    rewrite bind_run.
    destruct (MarketReturnImport.market_return company (so, io) mr w)
      as [w1 [[so1 io1]|e]] eqn:Hstep; [|done].
    apply market_return_Ok in Hstep. intros Hloop Hinv.
    rewrite filter_cons. destruct (decide (resolvable mr)).
    + rewrite (cons_middle mr), app_assoc.
      eapply IH; [exact Hloop|]. subst so1. by apply ledger_invariant_step.
    + subst so1. by eapply IH.
Qed.

(** X12. When [MarketReturnImport.run_atomic] commits, the ledger gains one
    entry for each invoice number among the market returns whose rate was
    found, in order of first appearance, and none for the others.  The
    entry takes tenant, type, date, party and tax id (an empty tax id read
    as none) from the first such row of its invoice number, and its amount
    is the sum of the amounts of all of them. *)
Theorem market_return_entries company args w w' :
  MarketReturnImport.run_atomic company args w = (w', Ok ()) →
  let rows :=
    filter resolvable (MarketReturnImport.market_returns (db w) company) in
  ∃ entries,
    sales (db w') = sales (db w) ++ entries ∧
    inum <$> entries = first_occurrences (mr_inum <$> rows) ∧
    NoDup (inum <$> entries) ∧
    Forall (λ e, market_return_entry company
                   (filter (λ mr, mr_inum mr = inum e) rows) e) entries.
Proof.
  intros Hrun rows.
  rewrite MarketReturnImport_run_atomic_unfold in Hrun. cbv zeta in Hrun.
  destruct (MarketReturnImport.market_return_loop _ _ _ w)
    as [w2 [[so io]|e]] eqn:Hloop; [|done].
  destruct (unique_inum (db w) && _); [done|]. injection Hrun as <-.
  apply (market_return_loop_invariant _ _ _ _ _ _ _ _ []) in Hloop
    as [Hkeys Hall]; [|by split].
  simpl in Hkeys, Hall. fold rows in Hkeys, Hall.
  assert (Forall (λ kv : string * Sales, inum kv.2 = kv.1) so) as Hinum.
  { eapply Forall_impl; [exact Hall|].
    intros [k s] (mr0 & rest & Hg & _ & _ & Hi & _). simpl in *.
    assert (mr0 ∈ filter (λ mr, mr_inum mr = k) rows) as Hin
      by (rewrite Hg; left).
    apply list_elem_of_filter in Hin as [<- _]. done. }
  assert (inum <$> so.*2 = so.*1) as Hfst.
  { clear -Hinum. induction Hinum as [|[k s] l Hk _ IH]; [done|].
    cbn. f_equal; [exact Hk|exact IH]. }
  exists so.*2. simpl. split_and!; [done| | |].
  - by rewrite Hfst.
  - rewrite Hfst, Hkeys. apply foldl_first_NoDup, NoDup_nil_2.
  - apply Forall_fmap.
    assert (Forall (λ kv : string * Sales,
                      market_return_entry company
                        (filter (λ mr, mr_inum mr = kv.1) rows) kv.2 ∧
                      inum kv.2 = kv.1) so) as Hboth
      by by apply Forall_and.
    eapply Forall_impl; [exact Hboth|]. intros [k s] [Hentry Hk]. simpl in *.
    by rewrite Hk.
Qed.

Lemma market_return_entries_witness :
  ∃ entries,
    sales (db (MarketReturnImport.run_atomic Sample.acme Sample.january
                 Cases.market_returns).1) = entries ∧
    inum <$> entries = ["D1"].
Proof.
  destruct (market_return_entries Sample.acme Sample.january
              Cases.market_returns
              (MarketReturnImport.run_atomic Sample.acme Sample.january
                 Cases.market_returns).1)
    as (entries & Hsales & Hinum & _).
  { vm_compute. reflexivity. }
  exists entries. split; [exact Hsales|exact Hinum].
Defined.

(** Invoice D1 has two rows with a rate, of 100 and 11; the row of D2 has
    none. *)
Example market_returns_summed :
  let r := MarketReturnImport.run_atomic Sample.acme Sample.january
             Cases.market_returns in
  r.2 = Ok () ∧
  (λ s, (inum s, date_ s, this (amt s))) <$> sales (db r.1)
  = [("D1", 5%Z, 111%Q)] ∧
  i_bill_id <$> inventory (db r.1) = ["D1"; "D1"].
Proof. by vm_compute. Qed.

(** ** The tax id of a party *)

Global Instance later_total : Total MarketReturnImport.later.
Proof. intros a b. unfold MarketReturnImport.later. lia. Qed.

Global Instance later_trans : Transitive MarketReturnImport.later.
Proof. intros a b c. unfold MarketReturnImport.later. lia. Qed.

(** X13. The tax id that [MarketReturnImport] looks up for a party is the
    one of a ledger row of the tenant and party with the latest date; it is
    none when the ledger has no row of that party. *)
Theorem party_ctin_latest d company party :
  let rows :=
    filter (λ s, company_id s = company ∧ party_id s = party) (sales d) in
  match rows with
  | [] => MarketReturnImport.party_ctin_subquery d company party = None
  | _ :: _ =>
      ∃ s, s ∈ rows ∧
           MarketReturnImport.party_ctin_subquery d company party = ctin s ∧
           ∀ s', s' ∈ rows → (date_ s' ≤ date_ s)%Z
  end.
Proof.
  intros rows. unfold MarketReturnImport.party_ctin_subquery. fold rows.
  pose proof (merge_sort_Permutation MarketReturnImport.later rows) as Hperm.
  pose proof (StronglySorted_merge_sort MarketReturnImport.later rows) as Hsort.
  destruct rows as [|s0 rows'] eqn:Hrows.
  - apply Permutation_nil_r in Hperm. by rewrite Hperm.
  - destruct (merge_sort MarketReturnImport.later (s0 :: rows'))
      as [|s sorted] eqn:Hms.
    + symmetry in Hperm. by apply Permutation_nil_r in Hperm.
    + exists s. simpl. split_and!.
      * rewrite <- Hperm. left.
      * done.
      * intros s' Hs'. rewrite <- Hperm in Hs'.
        apply StronglySorted_inv in Hsort as [_ Hall].
        apply elem_of_cons in Hs' as [->|Hs']; [done|].
        by apply (proj1 (Forall_forall _ _) Hall).
Qed.

(** The later of two ledger rows of party P1 gives the tax id. *)
Example party_ctin_of_latest_row :
  MarketReturnImport.party_ctin_subquery
    (db (Sample.store true [] [] [] []
           [set_ctin (Some "GST-OLD") (Sample.ledger "sales" "A1" 2 (-10));
            set_ctin (Some "GST-NEW") (Sample.ledger "sales" "A2" 9 (-10));
            set_ctin (Some "GST-MID") (Sample.ledger "sales" "A3" 5 (-10))]))
    Sample.acme "P1"
  = Some "GST-NEW".
Proof. by vm_compute. Qed.

(** ** Merging a report into a master table *)

Lemma take_batches {A} (n : nat) (l : list A) (m : nat) :
  (((λ j, j * n)%nat <$> seq 0 m) ≫= λ i, take n (drop i l)) = take (m * n) l.
Proof.
  induction m as [|m IH]; [by rewrite take_0|].
  rewrite seq_S, fmap_app, bind_app, IH. simpl. rewrite app_nil_r.
  rewrite take_take_drop. f_equal. lia.
Qed.

Lemma concat_batches {A} (n : nat) (l : list A) :
  (0 < n)%nat → (range_step (length l) n ≫= λ i, take n (drop i l)) = l.
Proof.
  intros Hn. unfold range_step. rewrite take_batches. apply take_ge.
  pose proof (Nat.div_mod_eq (length l + n - 1) n).
  pose proof (Nat.mod_upper_bound (length l + n - 1) n). nia.
Qed.

Section merged_facts.
Context {A K : Type} `{EqDecision K}.
Context (key : A → K) (update : A → A → A).
Hypothesis update_key : ∀ old new, key (update old new) = key old.

Lemma excluded_None batch old :
  excluded key batch old = None ↔ key old ∉ key <$> batch.
Proof.
  unfold excluded. rewrite head_None. split.
  - intros Hf (new & Hk & Hnew)%list_elem_of_fmap.
    assert (new ∈ filter (λ new, key new = key old) batch) as Hin
      by by apply list_elem_of_filter.
    rewrite Hf in Hin. by apply elem_of_nil in Hin.
  - intros Hnot. apply filter_none, Forall_forall. intros new Hnew Hk.
    apply Hnot. rewrite <- Hk. by apply list_elem_of_fmap_2.
Qed.

Lemma excluded_Some batch old new :
  excluded key batch old = Some new → new ∈ batch ∧ key new = key old.
Proof.
  unfold excluded. intros Hh.
  assert (new ∈ filter (λ new, key new = key old) batch) as Hin.
  { destruct (filter _ batch) as [|x l]; [done|]. injection Hh as ->. left. }
  apply list_elem_of_filter in Hin. tauto.
Qed.

Lemma excluded_self batch new :
  NoDup (key <$> batch) → new ∈ batch → excluded key batch new = Some new.
Proof.
  unfold excluded. induction batch as [|x batch IH]; intros Hnd Hin.
  - by apply elem_of_nil in Hin.
  - rewrite fmap_cons in Hnd. apply NoDup_cons in Hnd as [Hx Hnd].
    rewrite filter_cons. apply elem_of_cons in Hin as [->|Hin].
    + by rewrite decide_True.
    + rewrite decide_False; [by apply IH|]. intros Hk. apply Hx.
      rewrite Hk. by apply list_elem_of_fmap_2.
Qed.

Lemma excluded_app b1 b2 old :
  excluded key (b1 ++ b2) old =
  match excluded key b1 old with
  | Some new => Some new
  | None => excluded key b2 old
  end.
Proof.
  unfold excluded. rewrite filter_app.
  by destruct (filter _ b1).
Qed.

Lemma keys_merged table batch :
  key <$> merged key update table batch =
  (key <$> table) ++ (key <$> filter (λ new, key new ∉ key <$> table) batch).
Proof.
  unfold merged. rewrite fmap_app. f_equal.
  rewrite <- list_fmap_compose. apply list_fmap_ext. intros i old _. simpl.
  destruct (excluded key batch old); simpl; [apply update_key|done].
Qed.

Lemma NoDup_keys_merged table batch :
  NoDup (key <$> table) → NoDup (key <$> batch) →
  NoDup (key <$> merged key update table batch).
Proof.
  intros Ht Hb. rewrite keys_merged. apply NoDup_app. split_and!; [done| |].
  - intros k Hk (new & -> & [Hnew _]%list_elem_of_filter)%list_elem_of_fmap.
    done.
  - clear Ht. induction batch as [|x batch IH]; [constructor|].
    rewrite fmap_cons in Hb. apply NoDup_cons in Hb as [Hx Hb].
    rewrite filter_cons. destruct (decide _); [|by apply IH].
    rewrite fmap_cons. apply NoDup_cons. split; [|by apply IH].
    intros (y & Hy & [_ Hin]%list_elem_of_filter)%list_elem_of_fmap.
    apply Hx. rewrite Hy. by apply list_elem_of_fmap_2.
Qed.

Lemma merged_app table b1 b2 :
  NoDup (key <$> (b1 ++ b2)) →
  merged key update (merged key update table b1) b2
  = merged key update table (b1 ++ b2).
Proof.
  intros Hnd. rewrite fmap_app in Hnd.
  apply NoDup_app in Hnd as (Hb1 & Hdisj & Hb2).
  unfold merged at 1 3. rewrite keys_merged.
  unfold merged. rewrite fmap_app, filter_app, <- !app_assoc. f_equal; [|f_equal].
  - rewrite <- list_fmap_compose. apply list_fmap_ext. intros i old _. simpl.
    rewrite excluded_app.
    destruct (excluded key b1 old) as [new1|] eqn:H1; simpl.
    + apply excluded_Some in H1 as [Hin1 Hk1].
      assert (excluded key b2 (update old new1) = None) as ->; [|done].
      apply excluded_None. rewrite update_key, <- Hk1.
      apply Hdisj. by apply list_elem_of_fmap_2.
    + done.
  - rewrite <- (list_fmap_id (filter _ b1)) at 2.
    apply list_fmap_ext. intros i new Hnew%list_elem_of_lookup_2. simpl.
    apply list_elem_of_filter in Hnew as [_ Hnew].
    assert (excluded key b2 new = None) as ->; [|done].
    apply excluded_None. apply Hdisj. by apply list_elem_of_fmap_2.
  - apply filter_ext_elem_of. intros new Hnew. rewrite not_elem_of_app.
    split; [tauto|]. intros Hnot. split; [done|].
    intros (y & Hy & [_ Hin]%list_elem_of_filter)%list_elem_of_fmap.
    apply (Hdisj (key new)); [rewrite Hy|]; by apply list_elem_of_fmap_2.
Qed.

Lemma NoDup_take_drop (l : list K) n i : NoDup l → NoDup (take n (drop i l)).
Proof.
  intros Hl. apply (sublist_NoDup _ l); [exact Hl|].
  etransitivity; [apply sublist_take|apply sublist_drop].
Qed.

Lemma bulk_create_chain n table objs starts :
  NoDup (key <$> (starts ≫= λ i, take n (drop i objs))) →
  foldl (λ acc i,
           match acc with
           | inr table => insert_on_conflict key update table
                            (take n (drop i objs))
           | inl e => inl e
           end)
        (inr table) starts
  = inr (merged key update table (starts ≫= λ i, take n (drop i objs))).
Proof.
  revert table. induction starts as [|i starts IH] using rev_ind; intros table Hnd.
  - simpl. unfold merged. simpl. rewrite app_nil_r.
    f_equal. rewrite <- (list_fmap_id table) at 1.
    by apply list_fmap_ext.
  - rewrite bind_app in Hnd. simpl in Hnd. rewrite app_nil_r in Hnd.
    rewrite foldl_app. simpl. rewrite IH.
    + unfold insert_on_conflict. rewrite decide_True.
      * rewrite merged_app by done. f_equal. f_equal.
        rewrite bind_app. simpl. by rewrite app_nil_r.
      * rewrite fmap_app in Hnd. by apply NoDup_app in Hnd as (_ & _ & ?).
    + rewrite fmap_app in Hnd. by apply NoDup_app in Hnd as (? & _ & _).
Qed.

(** With pairwise different keys among the objects, the batches do not
    show: the result is the one of a single statement. *)
Lemma bulk_create_merged n table objs :
  (0 < n)%nat → NoDup (key <$> objs) →
  bulk_create_update_conflicts key update n table objs
  = inr (merged key update table objs).
Proof.
  intros Hn Hnd. unfold bulk_create_update_conflicts.
  rewrite bulk_create_chain; rewrite concat_batches; done.
Qed.

End merged_facts.

Lemma NoDup_fmap_eq {A K} (key : A → K) (l : list A) x y :
  NoDup (key <$> l) → x ∈ l → y ∈ l → key x = key y → x = y.
Proof.
  induction l as [|z l IH]; intros Hnd Hx Hy Hk.
  - by apply elem_of_nil in Hx.
  - rewrite fmap_cons in Hnd. apply NoDup_cons in Hnd as [Hz Hnd].
    apply elem_of_cons in Hx as [->|Hx]; apply elem_of_cons in Hy as [->|Hy].
    + done.
    + exfalso. apply Hz. rewrite Hk. by apply list_elem_of_fmap_2.
    + exfalso. apply Hz. rewrite <- Hk. by apply list_elem_of_fmap_2.
    + by apply IH.
Qed.

Section replaced_rows.
Context {A K : Type} `{EqDecision K}.
Context (key : A → K) (update : A → A → A).
Hypothesis update_new : ∀ old new, key new = key old → update old new = new.

Lemma excluded_key batch old new :
  NoDup (key <$> batch) → new ∈ batch → key new = key old →
  excluded key batch old = Some new.
Proof.
  intros Hnd Hin Hk. rewrite <- (excluded_self key batch new Hnd Hin).
  unfold excluded. by rewrite Hk.
Qed.

(** The table after the statement holds the rows of the batch and the rows
    of the table that no row of the batch replaces. *)
Lemma elem_of_merged table batch x :
  NoDup (key <$> batch) →
  x ∈ merged key update table batch ↔
  x ∈ batch ∨ (x ∈ table ∧ key x ∉ key <$> batch).
Proof.
  intros Hnd. unfold merged. rewrite elem_of_app, list_elem_of_fmap. split.
  - intros [(old & -> & Hold)|[_ Hx]%list_elem_of_filter]; [|by left].
    destruct (excluded key batch old) as [new|] eqn:He; simpl.
    + apply excluded_Some in He as [Hnew Hk]. left. by rewrite update_new.
    + right. split; [done|]. by apply excluded_None.
  - intros [Hx|[Hx Hk]].
    + destruct (decide (key x ∈ key <$> table)) as [Hin|Hout].
      * apply list_elem_of_fmap in Hin as (old & Hk & Hold).
        left. exists old. split; [|done].
        rewrite (excluded_key batch old x) by done. simpl.
        by rewrite update_new.
      * right. by apply list_elem_of_filter.
    + left. exists x. split; [|done].
      apply excluded_None in Hk. by rewrite Hk.
Qed.

Lemma merged_again table batch :
  NoDup (key <$> batch) →
  merged key update (merged key update table batch) batch
  = merged key update table batch.
Proof.
  intros Hnd. unfold merged at 1.
  rewrite (filter_none (λ new, key new ∉ key <$> merged key update table batch)).
  - rewrite app_nil_r. rewrite <- (list_fmap_id (merged _ _ _ _)) at 2.
    apply list_fmap_ext. intros i y Hy%list_elem_of_lookup_2. simpl.
    destruct (excluded key batch y) as [new|] eqn:He; simpl; [|done].
    apply excluded_Some in He as [Hnew Hk].
    apply elem_of_merged in Hy as [Hy|[_ Hy]]; [|exfalso|done].
    + rewrite (NoDup_fmap_eq key batch new y) by done. by apply update_new.
    + apply Hy. rewrite <- Hk. by apply list_elem_of_fmap_2.
  - apply Forall_forall. intros new Hnew Hnot. apply Hnot.
    apply list_elem_of_fmap_2, elem_of_merged; auto.
Qed.

End replaced_rows.

Lemma bulk_create_fails {A K} `{EqDecision K} (key : A → K)
    (update : A → A → A) n table objs :
  bulk_create_update_conflicts key update n table objs = inl ProgrammingError ↔
  ∃ i, i ∈ range_step (length objs) n ∧
       ¬ NoDup (key <$> take n (drop i objs)).
Proof.
  unfold bulk_create_update_conflicts.
  induction (range_step (length objs) n) as [|i starts IH] using rev_ind.
  - simpl. split; [done|]. intros (i & Hi & _). by apply elem_of_nil in Hi.
  - rewrite foldl_app. simpl.
    destruct (foldl _ _ starts) as [[]|t].
    + split; [|done]. intros _. destruct IH as [IH _].
      destruct (IH eq_refl) as (j & Hj & Hdup). exists j.
      split; [|done]. apply elem_of_app. by left.
    + unfold insert_on_conflict. destruct (decide _) as [Hnd|Hdup].
      * split; [done|]. intros (j & Hj & Hdup).
        apply elem_of_app in Hj as [Hj|Hj].
        -- destruct IH as [_ IH]. discriminate IH. by exists j.
        -- apply list_elem_of_singleton in Hj as ->. done.
      * split; [|done]. intros _. exists i. split; [|done].
        apply elem_of_app. right. apply list_elem_of_singleton. done.
Qed.

(** ** [StockImport] *)

Lemma StockImport_keys report company :
  StockImport.unique_fields <$> StockImport.objs report company
  = pair company <$>
      (sh_stock_id <$> filter (λ obj, sh_company obj = company) report).
Proof.
  unfold StockImport.objs. rewrite <- !list_fmap_compose.
  by apply list_fmap_ext.
Qed.

Lemma NoDup_pair {A B} (a : A) (l : list B) :
  NoDup (pair a <$> l) ↔ NoDup l.
Proof.
  split; [apply NoDup_fmap_1|]. apply NoDup_fmap_2. by intros x y [= ->].
Qed.

Lemma StockImport_update_key old new :
  StockImport.unique_fields (StockImport.update_fields old new)
  = StockImport.unique_fields old.
Proof. done. Qed.

Lemma StockImport_update_new old new :
  StockImport.unique_fields new = StockImport.unique_fields old →
  StockImport.update_fields old new = new.
Proof. destruct old, new. unfold StockImport.update_fields. simpl. by intros [= -> ->]. Qed.

Lemma StockImport_run_atomic_merged report company table :
  NoDup (sh_stock_id <$> filter (λ obj, sh_company obj = company) report) →
  StockImport.run_atomic report company table
  = inr (merged StockImport.unique_fields StockImport.update_fields table
           (StockImport.objs report company)).
Proof.
  intros Hnd. unfold StockImport.run_atomic.
  apply bulk_create_merged; [apply StockImport_update_key|lia|].
  rewrite StockImport_keys. by apply NoDup_pair.
Qed.

Lemma StockImport_key_reported report company s :
  StockImport.unique_fields s
    ∈ StockImport.unique_fields <$> StockImport.objs report company ↔
  st_company s = company ∧
  st_name s ∈ sh_stock_id <$> filter (λ obj, sh_company obj = company) report.
Proof.
  rewrite StockImport_keys, list_elem_of_fmap. unfold StockImport.unique_fields.
  split.
  - by intros (id & [= -> ->] & Hid).
  - intros [<- Hid]. by exists (st_name s).
Qed.

(** X14. [StockImport.run_atomic], when the tenant's rate report names each
    stock id once: the run succeeds; afterwards the stock master holds one
    row for every report row of the tenant, with the report's hsn and rate,
    and beside them exactly the rows it held before that belong to another
    tenant or to a stock id the report does not name, unchanged.  Nothing is
    dropped from the master, and (company, name) pairs that were pairwise
    different stay so. *)
Theorem stock_import_merges (report : list StockHsnRateReport)
    (company : Company) (table : list Stock) :
  NoDup (sh_stock_id <$> filter (λ obj, sh_company obj = company) report) →
  ∃ table',
    StockImport.run_atomic report company table = inr table' ∧
    (∀ s, s ∈ table' ↔
          s ∈ StockImport.objs report company ∨
          (s ∈ table ∧
           ¬ (st_company s = company ∧
              st_name s ∈ sh_stock_id
                <$> filter (λ obj, sh_company obj = company) report))) ∧
    StockImport.unique_fields <$> table ⊆ StockImport.unique_fields <$> table' ∧
    (NoDup (StockImport.unique_fields <$> table) →
     NoDup (StockImport.unique_fields <$> table')).
Proof.
  intros Hnd. eexists. split; [by apply StockImport_run_atomic_merged|].
  assert (NoDup (StockImport.unique_fields <$> StockImport.objs report company))
    as Hkeys by (rewrite StockImport_keys; by apply NoDup_pair).
  split_and!.
  - intros s. rewrite (elem_of_merged _ _ StockImport_update_new) by done.
    by rewrite StockImport_key_reported.
  - rewrite (keys_merged _ _ StockImport_update_key).
    intros k Hk. apply elem_of_app. by left.
  - intros Ht. by apply NoDup_keys_merged.
Qed.

Lemma stock_import_merges_witness :
  ∃ table',
    StockImport.run_atomic Masters.rate_report Sample.acme Masters.stock_master
      = inr table' ∧
    (∀ s, s ∈ table' ↔
          s ∈ StockImport.objs Masters.rate_report Sample.acme ∨
          (s ∈ Masters.stock_master ∧
           ¬ (st_company s = Sample.acme ∧
              st_name s ∈ sh_stock_id
                <$> filter (λ obj, sh_company obj = Sample.acme)
                           Masters.rate_report))) ∧
    StockImport.unique_fields <$> Masters.stock_master
      ⊆ StockImport.unique_fields <$> table' ∧
    (NoDup (StockImport.unique_fields <$> Masters.stock_master) →
     NoDup (StockImport.unique_fields <$> table')).
Proof.
  apply (stock_import_merges Masters.rate_report Sample.acme
           Masters.stock_master).
  apply (bool_decide_unpack _). vm_compute. exact I.
Defined.

(** The sample master after the import: "S1" takes the reported rate in
    place, "S2" is added for the tenant, the other rows stay. *)
Example stock_master_merged :
  StockImport.run_atomic Masters.rate_report Sample.acme Masters.stock_master
  = inr [{| st_company := Sample.acme; st_name := "S0"; st_hsn := "1905";
            st_rt := dec 5 |};
         {| st_company := Sample.acme; st_name := "S1"; st_hsn := "3401";
            st_rt := dec 18 |};
         {| st_company := "other"; st_name := "S2"; st_hsn := "3304";
            st_rt := dec 18 |};
         {| st_company := Sample.acme; st_name := "S2"; st_hsn := "3304";
            st_rt := dec 28 |}].
Proof. vm_compute. reflexivity. Qed.

(** X15. A second run of [StockImport.run_atomic] over the same report
    changes nothing: the master after the first run is a fixed point. *)
Theorem stock_import_rerun (report : list StockHsnRateReport)
    (company : Company) (table table' : list Stock) :
  NoDup (sh_stock_id <$> filter (λ obj, sh_company obj = company) report) →
  StockImport.run_atomic report company table = inr table' →
  StockImport.run_atomic report company table' = inr table'.
Proof.
  intros Hnd. rewrite !StockImport_run_atomic_merged by done.
  intros [= <-]. f_equal. apply (merged_again _ _ StockImport_update_new).
  rewrite StockImport_keys. by apply NoDup_pair.
Qed.

Lemma stock_import_rerun_witness :
  ∃ table',
    StockImport.run_atomic Masters.rate_report Sample.acme Masters.stock_master
      = inr table' ∧
    StockImport.run_atomic Masters.rate_report Sample.acme table' = inr table'.
Proof.
  eexists. split; [vm_compute; reflexivity|].
  apply (stock_import_rerun Masters.rate_report Sample.acme
           Masters.stock_master).
  - apply (bool_decide_unpack _). vm_compute. exact I.
  - vm_compute. reflexivity.
Defined.

(** X16. [StockImport.run_atomic] fails, with the store's
    [ProgrammingError] for a row affected twice by one statement, exactly
    when one batch of 2000 consecutive report rows of the tenant names a
    stock id twice.  The content of the stock master plays no part in
    it. *)
Theorem stock_import_fails_iff (report : list StockHsnRateReport)
    (company : Company) (table : list Stock) :
  StockImport.run_atomic report company table = inl ProgrammingError ↔
  ∃ i, i ∈ range_step
             (length (filter (λ obj, sh_company obj = company) report)) 2000 ∧
       ¬ NoDup (sh_stock_id
                  <$> take 2000
                        (drop i (filter (λ obj, sh_company obj = company)
                                        report))).
Proof.
  unfold StockImport.run_atomic. rewrite bulk_create_fails.
  unfold StockImport.objs. rewrite length_fmap.
  apply exist_proper. intros i.
  rewrite <- fmap_drop, <- fmap_take, <- list_fmap_compose.
  rewrite <- (NoDup_pair company (sh_stock_id <$> _)).
  by rewrite <- list_fmap_compose.
Qed.

Example repeated_report_fails :
  StockImport.run_atomic Masters.repeated_report Sample.acme
    Masters.stock_master = inl ProgrammingError.
Proof. vm_compute. reflexivity. Qed.

(** X17. [StockImport.run_atomic] before [MarketReturnImport.run_atomic]:
    once the stock import of a report that names each stock id of the
    tenant once has run, the rate lookup of the market-return import finds,
    for every stock id the tenant's report names, the reported rate; so no
    damage row of such an item is skipped as "Stock rate not found". *)
Theorem imported_rate_found (report : list StockHsnRateReport)
    (company : Company) (d : Database) (table' : list Stock)
    (obj : StockHsnRateReport) :
  NoDup (sh_stock_id <$> filter (λ obj, sh_company obj = company) report) →
  StockImport.run_atomic report company (stock d) = inr table' →
  obj ∈ report → sh_company obj = company →
  MarketReturnImport.stock_rt_subquery (with_stock table' d) company
    (sh_stock_id obj) = Some (sh_rt obj).
Proof.
  intros Hnd Hrun Hobj Hc.
  rewrite StockImport_run_atomic_merged in Hrun by done.
  injection Hrun as <-.
  assert (NoDup (StockImport.unique_fields <$> StockImport.objs report company))
    as Hkeys by (rewrite StockImport_keys; by apply NoDup_pair).
  set (new := {| st_company := company; st_name := sh_stock_id obj;
                 st_hsn := sh_hsn obj; st_rt := sh_rt obj |}).
  assert (new ∈ StockImport.objs report company) as Hnew.
  { unfold StockImport.objs. apply list_elem_of_fmap. exists obj.
    split; [done|]. by apply list_elem_of_filter. }
  unfold MarketReturnImport.stock_rt_subquery. simpl.
  destruct (filter (λ s, st_company s = company ∧ st_name s = sh_stock_id obj)
              _) as [|s rest] eqn:Hf.
  - exfalso. apply (filter_nil_not_elem_of _ _ new Hf); [done|].
    apply (elem_of_merged _ _ StockImport_update_new); auto.
  - simpl. f_equal.
    assert (s ∈ s :: rest) as Hs by left. rewrite <- Hf in Hs.
    apply list_elem_of_filter in Hs as [[Hsc Hsn] Hs].
    apply (elem_of_merged _ _ StockImport_update_new) in Hs
      as [Hs|[_ Hs]]; [|exfalso|done].
    + by rewrite (NoDup_fmap_eq StockImport.unique_fields
                    (StockImport.objs report company) s new)
        by (try done; unfold StockImport.unique_fields; simpl; congruence).
    + apply Hs. apply StockImport_key_reported. split; [done|].
      rewrite Hsn. apply list_elem_of_fmap. exists obj.
      split; [done|]. by apply list_elem_of_filter.
Qed.

Lemma imported_rate_found_witness :
  MarketReturnImport.stock_rt_subquery
    (with_stock
       [{| st_company := Sample.acme; st_name := "S0"; st_hsn := "1905";
           st_rt := dec 5 |};
        {| st_company := Sample.acme; st_name := "S1"; st_hsn := "3401";
           st_rt := dec 18 |};
        {| st_company := "other"; st_name := "S2"; st_hsn := "3304";
           st_rt := dec 18 |};
        {| st_company := Sample.acme; st_name := "S2"; st_hsn := "3304";
           st_rt := dec 28 |}]
       (with_stock Masters.stock_master (db (Sample.unmatched false))))
    Sample.acme "S2" = Some (dec 28).
Proof.
  apply (imported_rate_found Masters.rate_report Sample.acme
           (with_stock Masters.stock_master (db (Sample.unmatched false))) _
           {| sh_company := Sample.acme; sh_stock_id := "S2";
              sh_hsn := "3304"; sh_rt := dec 28 |}).
  - apply (bool_decide_unpack _). vm_compute. exact I.
  - vm_compute. reflexivity.
  - apply (list_elem_of_lookup_2 _ 2). reflexivity.
  - reflexivity.
Defined.

(** ** [PartyImport] *)

Lemma PartyImport_keys report company :
  PartyImport.unique_fields <$> PartyImport.objs report company
  = pair company <$>
      (pr_code <$> filter (λ obj, pr_company obj = company) report).
Proof.
  unfold PartyImport.objs. rewrite <- !list_fmap_compose.
  by apply list_fmap_ext.
Qed.

Lemma PartyImport_update_key old new :
  PartyImport.unique_fields (PartyImport.update_fields old new)
  = PartyImport.unique_fields old.
Proof. done. Qed.

Lemma PartyImport_update_new old new :
  PartyImport.unique_fields new = PartyImport.unique_fields old →
  PartyImport.update_fields old new = new.
Proof.
  destruct old, new. unfold PartyImport.update_fields. simpl.
  by intros [= -> ->].
Qed.

Lemma PartyImport_run_atomic_merged report company table :
  NoDup (pr_code <$> filter (λ obj, pr_company obj = company) report) →
  PartyImport.run_atomic report company table
  = inr (merged PartyImport.unique_fields PartyImport.update_fields table
           (PartyImport.objs report company)).
Proof.
  intros Hnd. unfold PartyImport.run_atomic.
  apply bulk_create_merged; [apply PartyImport_update_key|lia|].
  rewrite PartyImport_keys. by apply NoDup_pair.
Qed.

Lemma PartyImport_key_reported report company p :
  PartyImport.unique_fields p
    ∈ PartyImport.unique_fields <$> PartyImport.objs report company ↔
  p_company p = company ∧
  p_code p ∈ pr_code <$> filter (λ obj, pr_company obj = company) report.
Proof.
  rewrite PartyImport_keys, list_elem_of_fmap. unfold PartyImport.unique_fields.
  split.
  - by intros (id & [= -> ->] & Hid).
  - intros [<- Hid]. by exists (p_code p).
Qed.

(** X18. [PartyImport.run_atomic], when the tenant's party report names each
    party code once: the run succeeds; afterwards the party master holds
    one row for every report row of the tenant, with the report's name,
    address, master code, phone and GSTIN, and beside them exactly the rows
    it held before that belong to another tenant or to a code the report
    does not name, unchanged; and a second run over the same report changes
    nothing. *)
Theorem party_import_merges (report : list PartyReport) (company : Company)
    (table : list Party) :
  NoDup (pr_code <$> filter (λ obj, pr_company obj = company) report) →
  ∃ table',
    PartyImport.run_atomic report company table = inr table' ∧
    (∀ p, p ∈ table' ↔
          p ∈ PartyImport.objs report company ∨
          (p ∈ table ∧
           ¬ (p_company p = company ∧
              p_code p ∈ pr_code
                <$> filter (λ obj, pr_company obj = company) report))) ∧
    PartyImport.run_atomic report company table' = inr table'.
Proof.
  intros Hnd. eexists. split; [by apply PartyImport_run_atomic_merged|].
  assert (NoDup (PartyImport.unique_fields <$> PartyImport.objs report company))
    as Hkeys by (rewrite PartyImport_keys; by apply NoDup_pair).
  split.
  - intros p. rewrite (elem_of_merged _ _ PartyImport_update_new) by done.
    by rewrite PartyImport_key_reported.
  - rewrite PartyImport_run_atomic_merged by done. f_equal.
    by apply (merged_again _ _ PartyImport_update_new).
Qed.

Lemma party_import_merges_witness :
  ∃ table',
    PartyImport.run_atomic Masters.party_report Sample.acme
      Masters.party_master = inr table' ∧
    (∀ p, p ∈ table' ↔
          p ∈ PartyImport.objs Masters.party_report Sample.acme ∨
          (p ∈ Masters.party_master ∧
           ¬ (p_company p = Sample.acme ∧
              p_code p ∈ pr_code
                <$> filter (λ obj, pr_company obj = Sample.acme)
                           Masters.party_report))) ∧
    PartyImport.run_atomic Masters.party_report Sample.acme table'
      = inr table'.
Proof.
  apply (party_import_merges Masters.party_report Sample.acme
           Masters.party_master).
  apply (bool_decide_unpack _). vm_compute. exact I.
Defined.

(** The sample party master after the import: "P1" is renamed in place and
    takes the reported phone and GSTIN, "P3" stays, "P2" is added. *)
Example party_master_merged :
  PartyImport.run_atomic Masters.party_report Sample.acme Masters.party_master
  = inr [{| p_company := Sample.acme; p_name := "Anand Stores";
            p_addr := "Salem"; p_code := "P1"; p_master_code := "M1";
            p_phone := "1"; p_ctin := Some "33AAAAA0000A1Z5" |};
         {| p_company := Sample.acme; p_name := "Chitra Agencies";
            p_addr := "Karur"; p_code := "P3"; p_master_code := "M3";
            p_phone := "3"; p_ctin := None |};
         {| p_company := Sample.acme; p_name := "Bala Traders";
            p_addr := "Erode"; p_code := "P2"; p_master_code := "M2";
            p_phone := "2"; p_ctin := None |}].
Proof. vm_compute. reflexivity. Qed.
